(** * flip-test-be: the reconciliation pipeline, embedded and verified

    A shallow embedding of the Go packages [domain], [storage], [retry],
    [eventbus] and [service] (the CSV processor), followed by the theorems
    that settle the specification's claims against it.

    Conventions of the embedding:
    - Go's [int64] (and [int], taken at its 64-bit width) is a [Z] kept in
      range by an explicit two's-complement [Int64.wrap] after every
      arithmetic operation.
    - Go's string-typed enumerations ([TransactionType], [TransactionStatus],
      [UploadStatus], [EventType]) stay strings, compared with [decide].
    - Go maps are stdpp [gmap]s; a slice is a [list].
    - A function returning [(v, error)] returns a pair [(v, option error)];
      methods on a pointer receiver thread the receiver explicitly.
    - [time.Now()] is an explicit argument [now]: one value for a function
      that reads the clock once, and for the CSV processor's loop, which reads
      it once per event, a value for each iteration.  What else a call
      observes of its surroundings (the state of its context, the choice of
      a [select]) is an argument in the same way.
    - What the Go release supplies as data or as a limit of the runtime (the
      case table of package [unicode], the largest channel [make] allocates)
      is a parameter of the functions that depend on it. *)

From stdpp Require Import gmap strings list.
From Stdlib Require Import ZArith Lia Ascii DecimalString.
From Stdlib Require DecimalPos DecimalZ Sorted.

Open Scope Z_scope.

(** ** Machine integers *)

Module Int64.

Definition min_int : Z := - 2 ^ 63.
Definition max_int : Z := 2 ^ 63 - 1.

Definition in_range (z : Z) : Prop := min_int <= z <= max_int.

(** Reduction of an unbounded integer to its two's-complement
    representative in [[min_int, max_int]]. *)
Definition wrap (z : Z) : Z := (z + 2 ^ 63) mod 2 ^ 64 - 2 ^ 63.

Definition add (a b : Z) : Z := wrap (a + b).
Definition sub (a b : Z) : Z := wrap (a - b).
Definition mul (a b : Z) : Z := wrap (a * b).

(** [x << s] for an unsigned shift count [s]: counts of 64 and more
    give 0. *)
Definition shl (x s : Z) : Z :=
  if s <? 64 then wrap (x * 2 ^ s) else 0.

(** [uint(x)] for a 64-bit [int] [x]. *)
Definition to_uint (x : Z) : Z := x mod 2 ^ 64.

End Int64.

(** ** Errors

    Sentinel errors of package [domain] and of [context], the [strconv]
    failures, and one constructor per [fmt.Errorf] call site. *)

Inductive error : Type :=
| ErrUploadNotFound
| ErrInvalidCSVFormat
| ErrProcessingFailed
| ErrDuplicateEvent
| ErrInvalidStatus
| ErrInvalidPageParams
| Canceled
| DeadlineExceeded
| ErrSyntax
| ErrRange
| ErrIO (msg : string)
| ErrMaxRetriesExceeded (maxAttempts : Z) (cause : error)
| ErrInvalidPayloadType
| ErrRecordFormat (got : Z)
| ErrInvalidTimestamp (cause : error)
| ErrInvalidAmount (cause : error)
| ErrInvalidTransactionType (txType : string)
| ErrInvalidTxStatus (status : string).

Definition Time := Z.

(** A Go call either returns its results or panics. *)
Inductive go_result (A : Type) : Type :=
| Returns (a : A)
| Panics.
Arguments Returns {A} a.
Arguments Panics {A}.

(** The slice expression [l[lo:hi]]: Go panics unless [0 <= lo <= hi <= cap(l)].
    Every use below has [hi <= len(l)] whenever [hi] is non-negative, so the
    bound is written against the length. *)
Definition slice {A : Type} (l : list A) (lo hi : Z) : go_result (list A) :=
  if decide (0 <= lo ∧ lo <= hi ∧ hi <= Z.of_nat (length l))
  then Returns (take (Z.to_nat (hi - lo)) (drop (Z.to_nat lo) l))
  else Panics.

(** ** Package domain (models.go) *)

Module domain.

Definition TransactionType := string.
Definition TransactionTypeCredit : TransactionType := "CREDIT".
Definition TransactionTypeDebit : TransactionType := "DEBIT".

Definition TransactionStatus := string.
Definition TransactionStatusSuccess : TransactionStatus := "SUCCESS".
Definition TransactionStatusFailed : TransactionStatus := "FAILED".
Definition TransactionStatusPending : TransactionStatus := "PENDING".

Module Transaction.
Record t : Type := Build {
  Timestamp : Z;
  Counterparty : string;
  Type_ : TransactionType;
  Amount : Z;
  Status : TransactionStatus;
  Description : string
}.
(** The zero value [domain.Transaction{}]. *)
Definition zero : t := Build 0 "" "" 0 "" "".
End Transaction.

Definition UploadStatus := string.
Definition UploadStatusProcessing : UploadStatus := "processing".
Definition UploadStatusCompleted : UploadStatus := "completed".
Definition UploadStatusFailed : UploadStatus := "failed".

Module Upload.
Record t : Type := Build {
  ID : string;
  Status : UploadStatus;
  ProcessedRows : Z;
  TotalRows : Z;
  CreatedAt : Time;
  CompletedAt : option Time
}.
End Upload.

Module IssueTransaction.
Record t : Type := Build {
  Transaction_ : Transaction.t;
  LineNumber : Z
}.
End IssueTransaction.

(** The [Repository] interface (repository.go), over the state [R] of an
    implementation.  Every method threads the state, since an
    implementation is free to mutate on any call. *)
Class Repository (R : Type) : Type := {
  repo_CreateUpload : Time -> string -> R -> R * option error;
  repo_GetUpload : string -> R -> R * (option Upload.t * option error);
  repo_UpdateUploadStatus : Time -> string -> UploadStatus -> R -> R * option error;
  repo_IncrementProcessedRows : string -> R -> R * option error;
  repo_AddTransaction : string -> Transaction.t -> Z -> R -> R * option error;
  repo_GetBalance : string -> R -> R * (Z * option error);
  repo_GetIssues :
    string -> Z -> Z -> option TransactionStatus -> R ->
    R * go_result (list IssueTransaction.t * Z * option error);
  repo_IsEventProcessed : string -> R -> R * (bool * option error);
  repo_MarkEventProcessed : string -> R -> R * option error
}.

End domain.

(** ** Package storage (memory_store.go) *)

Module storage.
Import domain.

Module TransactionWithLine.
Record t : Type := Build {
  Transaction_ : Transaction.t;
  LineNumber : Z
}.
End TransactionWithLine.

Record MemoryStore : Type := mkStore {
  uploads : gmap string Upload.t;
  transactions : gmap string (list TransactionWithLine.t);
  processedEvents : gmap string bool
}.

Definition NewMemoryStore : MemoryStore :=
  {| uploads := ∅; transactions := ∅; processedEvents := ∅ |}.

Definition CreateUpload (now : Time) (uploadID : string) (s : MemoryStore)
  : MemoryStore * option error :=
  ({| uploads :=
        <[uploadID := Upload.Build uploadID UploadStatusProcessing 0 0 now None]>
          (uploads s);
      transactions := <[uploadID := []]> (transactions s);
      processedEvents := processedEvents s |},
   None).

Definition GetUpload (uploadID : string) (s : MemoryStore)
  : option Upload.t * option error :=
  match uploads s !! uploadID with
  | None => (None, Some ErrUploadNotFound)
  | Some upload => (Some upload, None)
  end.

Definition UpdateUploadStatus (now : Time) (uploadID : string)
    (status : UploadStatus) (s : MemoryStore) : MemoryStore * option error :=
  match uploads s !! uploadID with
  | None => (s, Some ErrUploadNotFound)
  | Some upload =>
      let completedAt :=
        if decide (status = UploadStatusCompleted ∨ status = UploadStatusFailed)
        then Some now else Upload.CompletedAt upload in
      let upload' :=
        Upload.Build (Upload.ID upload) status (Upload.ProcessedRows upload)
          (Upload.TotalRows upload) (Upload.CreatedAt upload) completedAt in
      ({| uploads := <[uploadID := upload']> (uploads s);
          transactions := transactions s;
          processedEvents := processedEvents s |},
       None)
  end.

Definition IncrementProcessedRows (uploadID : string) (s : MemoryStore)
  : MemoryStore * option error :=
  match uploads s !! uploadID with
  | None => (s, Some ErrUploadNotFound)
  | Some upload =>
      let upload' :=
        Upload.Build (Upload.ID upload) (Upload.Status upload)
          (Int64.add (Upload.ProcessedRows upload) 1)
          (Upload.TotalRows upload) (Upload.CreatedAt upload)
          (Upload.CompletedAt upload) in
      ({| uploads := <[uploadID := upload']> (uploads s);
          transactions := transactions s;
          processedEvents := processedEvents s |},
       None)
  end.

(** [s.transactions[uploadID]] read as a slice: a missing key reads as the
    nil slice. *)
Definition txs_of (s : MemoryStore) (uploadID : string)
  : list TransactionWithLine.t :=
  default [] (transactions s !! uploadID).

Definition AddTransaction (uploadID : string) (tx : Transaction.t)
    (lineNumber : Z) (s : MemoryStore) : MemoryStore * option error :=
  match uploads s !! uploadID with
  | None => (s, Some ErrUploadNotFound)
  | Some _ =>
      ({| uploads := uploads s;
          transactions :=
            <[uploadID := txs_of s uploadID
                            ++ [TransactionWithLine.Build tx lineNumber]]>
              (transactions s);
          processedEvents := processedEvents s |},
       None)
  end.

(** One iteration of the loop of [GetBalance]. *)
Definition balance_step (balance : Z) (txWithLine : TransactionWithLine.t) : Z :=
  let tx := TransactionWithLine.Transaction_ txWithLine in
  if decide (Transaction.Status tx = TransactionStatusSuccess) then
    if decide (Transaction.Type_ tx = TransactionTypeCredit) then
      Int64.add balance (Transaction.Amount tx)
    else if decide (Transaction.Type_ tx = TransactionTypeDebit) then
      Int64.sub balance (Transaction.Amount tx)
    else balance
  else balance.

Definition GetBalance (uploadID : string) (s : MemoryStore) : Z * option error :=
  match uploads s !! uploadID with
  | None => (0, Some ErrUploadNotFound)
  | Some _ =>
      match transactions s !! uploadID with
      | None => (0, None)
      | Some transactions => (fold_left balance_step transactions 0, None)
      end
  end.

(** One iteration of the filtering loop of [GetIssues]; [status] is the
    optional filter (a nil pointer is [None]). *)
Definition issues_step (status : option TransactionStatus)
    (filtered : list IssueTransaction.t) (txWithLine : TransactionWithLine.t)
  : list IssueTransaction.t :=
  let tx := TransactionWithLine.Transaction_ txWithLine in
  let skipped :=
    match status with
    | Some st => bool_decide (Transaction.Status tx ≠ st)
    | None => false
    end in
  if skipped then filtered
  else if decide (Transaction.Status tx = TransactionStatusFailed
                  ∨ Transaction.Status tx = TransactionStatusPending)
  then filtered ++ [IssueTransaction.Build tx (TransactionWithLine.LineNumber txWithLine)]
  else filtered.

(** The paging tail of [GetIssues], from [total := len(filtered)] on. *)
Definition paginate (filtered : list IssueTransaction.t) (page perPage : Z)
  : go_result (list IssueTransaction.t * Z * option error) :=
  let total := Z.of_nat (length filtered) in
  let page := if decide (page < 1) then 1 else page in
  let perPage := if decide (perPage < 1) then 10 else perPage in
  let start := Int64.mul (Int64.sub page 1) perPage in
  let end_ := Int64.add start perPage in
  if decide (start >= total) then Returns ([], total, None)
  else
    let end_ := if decide (end_ > total) then total else end_ in
    match slice filtered start end_ with
    | Returns items => Returns (items, total, None)
    | Panics => Panics
    end.

Definition GetIssues (uploadID : string) (page perPage : Z)
    (status : option TransactionStatus) (s : MemoryStore)
  : go_result (list IssueTransaction.t * Z * option error) :=
  match uploads s !! uploadID with
  | None => Returns ([], 0, Some ErrUploadNotFound)
  | Some _ =>
      match transactions s !! uploadID with
      | None => Returns ([], 0, None)
      | Some transactions =>
          paginate (fold_left (issues_step status) transactions []) page perPage
      end
  end.

(** Reading a [map[string]bool] at a missing key gives [false]. *)
Definition IsEventProcessed (eventID : string) (s : MemoryStore)
  : bool * option error :=
  (default false (processedEvents s !! eventID), None).

Definition MarkEventProcessed (eventID : string) (s : MemoryStore)
  : MemoryStore * option error :=
  ({| uploads := uploads s;
      transactions := transactions s;
      processedEvents := <[eventID := true]> (processedEvents s) |},
   None).

(** The mutating operations of the store, as data, and the states they
    reach from [NewMemoryStore]. *)
Inductive op : Type :=
| OpCreateUpload (now : Time) (uploadID : string)
| OpUpdateUploadStatus (now : Time) (uploadID : string) (status : UploadStatus)
| OpIncrementProcessedRows (uploadID : string)
| OpAddTransaction (uploadID : string) (tx : Transaction.t) (lineNumber : Z)
| OpMarkEventProcessed (eventID : string).

Definition apply_op (s : MemoryStore) (o : op) : MemoryStore :=
  match o with
  | OpCreateUpload now id => fst (CreateUpload now id s)
  | OpUpdateUploadStatus now id st => fst (UpdateUploadStatus now id st s)
  | OpIncrementProcessedRows id => fst (IncrementProcessedRows id s)
  | OpAddTransaction id tx ln => fst (AddTransaction id tx ln s)
  | OpMarkEventProcessed id => fst (MarkEventProcessed id s)
  end.

Definition run (ops : list op) : MemoryStore := fold_left apply_op ops NewMemoryStore.

(** [*MemoryStore] implements [domain.Repository]; the read-only methods
    leave the state as it is. *)
#[export] Instance MemoryStore_Repository : Repository MemoryStore := {
  repo_CreateUpload := CreateUpload;
  repo_GetUpload := fun id s => (s, GetUpload id s);
  repo_UpdateUploadStatus := UpdateUploadStatus;
  repo_IncrementProcessedRows := IncrementProcessedRows;
  repo_AddTransaction := AddTransaction;
  repo_GetBalance := fun id s => (s, GetBalance id s);
  repo_GetIssues := fun id page perPage status s => (s, GetIssues id page perPage status s);
  repo_IsEventProcessed := fun id s => (s, IsEventProcessed id s);
  repo_MarkEventProcessed := MarkEventProcessed
}.

End storage.

(** ** Package retry (retry.go) *)

Module retry.

(** [time.Duration]: an [int64] count of nanoseconds. *)
Definition Duration := Z.
Definition Second : Duration := 1000000000.

Record Config : Type := mkConfig {
  MaxAttempts : Z;
  BaseDelay : Duration;
  MaxDelay : Duration
}.

Definition Option := Config -> Config.

Definition WithMaxAttempts (attempts : Z) : Option :=
  fun c => mkConfig attempts (BaseDelay c) (MaxDelay c).

Definition defaultConfig : Config := mkConfig 5 (1 * Second) (30 * Second).

Definition calculateBackoff (attempt : Z) (baseDelay maxDelay : Duration) : Duration :=
  let delay := Int64.mul baseDelay (Int64.shl 1 (Int64.to_uint attempt)) in
  if decide (delay > maxDelay) then maxDelay else delay.

Section Do.
Context {St : Type}.

(** [ctx_done attempt] is what the [select] after the failed attempt
    number [attempt] observes: [None] when the timer fires, [Some err]
    when [ctx.Done()] is taken, [err] being [ctx.Err()]. *)
Variable ctx_done : Z -> option error.

(** The operation, acting on the state it closes over. *)
Variable fn : St -> St * option error.

Variable cfg : Config.

(** The [for] loop of [Do], entered with [attempt] and
    [remaining = MaxAttempts - attempt] iterations to go.  The result
    carries the delays the loop slept on, in order. *)
Fixpoint loop (remaining : nat) (attempt : Z) (lastErr : option error) (s : St)
  : St * option error * list Duration :=
  match remaining with
  | O => (s, lastErr, [])
  | S remaining' =>
      let '(s', err) := fn s in
      match err with
      | None => (s', None, [])
      | Some e =>
          if decide (attempt = MaxAttempts cfg - 1)
          then (s', Some (ErrMaxRetriesExceeded (MaxAttempts cfg) e), [])
          else
            let delay := calculateBackoff attempt (BaseDelay cfg) (MaxDelay cfg) in
            match ctx_done attempt with
            | None =>
                let '(s'', r, delays) :=
                  loop remaining' (attempt + 1) (Some e) s' in
                (s'', r, delay :: delays)
            | Some ctxErr => (s', Some ctxErr, [delay])
            end
      end
  end.
End Do.

Definition applyOptions (opts : list Option) : Config :=
  fold_left (fun cfg opt => opt cfg) opts defaultConfig.

Definition Do {St : Type} (ctx_done : Z -> option error)
    (fn : St -> St * option error) (opts : list Option) (s : St)
  : St * option error * list Duration :=
  let cfg := applyOptions opts in
  loop ctx_done fn cfg (Z.to_nat (MaxAttempts cfg)) 0 None s.

End retry.

(** ** Package eventbus (event.go, bus.go, reconciliation_consumer.go) *)

Module eventbus.
Import domain.

Definition EventType := string.
Definition EventTypeReconciliation : EventType := "reconciliation".

Module ReconciliationEvent.
Record t : Type := Build {
  UploadID : string;
  Transaction_ : Transaction.t;
  LineNumber : Z
}.
End ReconciliationEvent.

(** [Event.Payload] is an [interface{}]: either a [ReconciliationEvent] or
    a value of some other dynamic type. *)
Inductive payload : Type :=
| PayloadReconciliation (p : ReconciliationEvent.t)
| PayloadOther (dynamicType : string).

Module Event.
Record t : Type := Build {
  ID : string;
  Type_ : EventType;
  Payload : payload;
  Timestamp : Time;
  Retries : Z
}.
End Event.

(** A buffered channel of events: the queued events, oldest first, and the
    capacity it was made with. *)
Record chan : Type := mkChan {
  buf : list Event.t;
  cap : Z
}.

(** The consumer registered with the bus, reduced to what the bus reads
    from it. *)
Record ReconciliationConsumer : Type := NewReconciliationConsumer {
  workerCount : Z
}.

Definition GetWorkerCount (rc : ReconciliationConsumer) : Z := workerCount rc.

(** The sequential part of [eventBus]: the worker goroutines, their wait
    group and the bus's own context are not represented. *)
Record eventBus : Type := mkBus {
  channels : gmap EventType chan;
  consumers : gmap EventType (list ReconciliationConsumer);
  channelBuffer : Z;
  started : bool
}.

Definition New (channelBuffer : Z) : eventBus :=
  mkBus ∅ ∅ channelBuffer false.

(** [make(chan Event, size)].  The runtime's [makechan] panics ("makechan:
    size out of range") when [size] is negative and when a buffer of [size]
    events is more than it allocates.  [maxSize] is the largest size it
    accepts, [(maxAlloc - hchanSize) / unsafe.Sizeof(Event{})]: a constant of
    the Go release and the platform, which the model takes as given.  Running
    out of memory below that size, as in any allocation, is not
    represented. *)
Definition make_chan (maxSize size : Z) : go_result chan :=
  if decide (size < 0 \/ maxSize < size) then Panics
  else Returns (mkChan [] size).

(** [Subscribe], on a runtime that makes channels of up to [maxSize]
    events. *)
Definition Subscribe (maxSize : Z) (eventType : EventType)
    (consumer : ReconciliationConsumer) (eb : eventBus)
  : go_result (eventBus * option error) :=
  let consumers' :=
    <[eventType := default [] (consumers eb !! eventType) ++ [consumer]]>
      (consumers eb) in
  match channels eb !! eventType with
  | Some _ =>
      Returns (mkBus (channels eb) consumers' (channelBuffer eb) (started eb), None)
  | None =>
      match make_chan maxSize (channelBuffer eb) with
      | Panics => Panics
      | Returns ch =>
          Returns
            (mkBus (<[eventType := ch]> (channels eb))
               consumers' (channelBuffer eb) (started eb),
             None)
      end
  end.

(** What the Go runtime contributes to one [select]: whether a worker is
    parked in a receive on the channel, and which case it picks when both
    the send and [ctx.Done()] can proceed. *)
Record select_env : Type := mkEnv {
  receiver_parked : bool;
  done_first : bool
}.

(** The send [ch <- event] can proceed when the buffer has room, or when
    the buffer is empty and a receiver is parked on the channel. *)
Definition send_ready (ch : chan) (env : select_env) : bool :=
  bool_decide (Z.of_nat (length (buf ch)) < cap ch)
  || (receiver_parked env && bool_decide (length (buf ch) = 0%nat)).

Definition send (eventType : EventType) (ch : chan) (event : Event.t)
    (eb : eventBus) : eventBus :=
  mkBus (<[eventType := mkChan (buf ch ++ [event]) (cap ch)]> (channels eb))
    (consumers eb) (channelBuffer eb) (started eb).

(** [Publish]; [ctx] is [ctx.Err()] at the time of the [select]: [None]
    while the context is live. *)
Definition Publish (env : select_env) (ctx : option error) (event : Event.t)
    (eb : eventBus) : eventBus * option error :=
  match channels eb !! Event.Type_ event with
  | None => (eb, None)
  | Some ch =>
      match send_ready ch env, ctx with
      | true, Some ctxErr =>
          if done_first env then (eb, Some ctxErr)
          else (send (Event.Type_ event) ch event eb, None)
      | true, None => (send (Event.Type_ event) ch event eb, None)
      | false, Some ctxErr => (eb, Some ctxErr)
      | false, None => (eb, None)
      end
  end.

(** The queue of an event type, empty when there is no channel. *)
Definition queue_of (eb : eventBus) (eventType : EventType) : list Event.t :=
  match channels eb !! eventType with
  | Some ch => buf ch
  | None => []
  end.

(** The [EventBus] interface, as far as the CSV processor uses it.  A call
    of [Publish] acts on the bus [B] with what the environment of the bus
    contributes to that call, a value of [E] (for the in-process bus, the
    [select_env] of its [select]), and with [ctx.Err()] as it is then. *)
Class EventBus (B E : Type) : Type := {
  bus_Publish : E -> option error -> Event.t -> B -> B * option error
}.

#[export] Instance eventBus_EventBus : EventBus eventBus select_env :=
  {| bus_Publish := Publish |}.

Section Consume.
Context {R : Type} `{Repository R}.

Definition Consume (event : Event.t) (s : R) : R * option error :=
  let '(s, (processed, err)) := repo_IsEventProcessed (Event.ID event) s in
  match err with
  | Some e => (s, Some e)
  | None =>
      if processed then (s, None)
      else
        match Event.Payload event with
        | PayloadOther _ => (s, Some ErrInvalidPayloadType)
        | PayloadReconciliation payload =>
            let '(s, err) :=
              repo_AddTransaction (ReconciliationEvent.UploadID payload)
                (ReconciliationEvent.Transaction_ payload)
                (ReconciliationEvent.LineNumber payload) s in
            match err with
            | Some e => (s, Some e)
            | None =>
                let '(s, err) := repo_MarkEventProcessed (Event.ID event) s in
                match err with
                | Some e => (s, Some e)
                | None =>
                    let '(s, _) :=
                      repo_IncrementProcessedRows
                        (ReconciliationEvent.UploadID payload) s in
                    (s, None)
                end
            end
        end
  end.

(** [processEvent]: the consumer under [retry.Do] with five attempts. *)
Definition processEvent (ctx_done : Z -> option error) (event : Event.t) (s : R)
  : R * option error * list retry.Duration :=
  retry.Do ctx_done (Consume event) [retry.WithMaxAttempts 5] s.

(** [n] successive calls of [Consume] on the same event, with the error
    of each call. *)
Fixpoint Consume_times (n : nat) (event : Event.t) (s : R)
  : R * list (option error) :=
  match n with
  | O => (s, [])
  | S n' =>
      let '(s', err) := Consume event s in
      let '(s'', errs) := Consume_times n' event s' in
      (s'', err :: errs)
  end.
End Consume.

End eventbus.

(** ** The Go standard library functions the CSV processor calls

    Strings are byte strings.  [TrimSpace] and [ToUpper] work on the runes
    that the bytes encode in UTF-8, as [strings.TrimSpace] and
    [strings.ToUpper] do; on a string of ASCII bytes they are the trimming
    of the six ASCII spaces and the mapping of [a-z].  [ParseInt] is
    [strconv.ParseInt(s, 10, 64)]. *)

Module gostd.

(** *** Strings as byte sequences *)

Definition bytes (s : string) : list Z :=
  (fun c => Z.of_nat (nat_of_ascii c)) <$> String.list_ascii_of_string s.

Definition of_bytes (l : list Z) : string :=
  String.string_of_list_ascii ((fun b => ascii_of_nat (Z.to_nat b)) <$> l).

(** *** Package unicode/utf8 *)

Definition RuneError : Z := 0xFFFD.
Definition MaxRune : Z := 0x10FFFF.

(** What a first byte announces (the tables [first] and [acceptRanges]):
    the width of the encoding and the range of its second byte; width 0 for
    a byte that starts no encoding of two bytes or more. *)
Definition first (b0 : Z) : nat * Z * Z :=
  if bool_decide (0xC2 <= b0 <= 0xDF) then (2%nat, 0x80, 0xBF)
  else if bool_decide (b0 = 0xE0) then (3%nat, 0xA0, 0xBF)
  else if bool_decide (0xE1 <= b0 <= 0xEC) then (3%nat, 0x80, 0xBF)
  else if bool_decide (b0 = 0xED) then (3%nat, 0x80, 0x9F)
  else if bool_decide (0xEE <= b0 <= 0xEF) then (3%nat, 0x80, 0xBF)
  else if bool_decide (b0 = 0xF0) then (4%nat, 0x90, 0xBF)
  else if bool_decide (0xF1 <= b0 <= 0xF3) then (4%nat, 0x80, 0xBF)
  else if bool_decide (b0 = 0xF4) then (4%nat, 0x80, 0x8F)
  else (0%nat, 0, 0).

Definition continuation (b : Z) : bool := bool_decide (0x80 <= b <= 0xBF).

(** The runes of a byte string, as [for _, r := range s] and
    [utf8.DecodeRuneInString] give them: a byte that does not start a
    well-formed encoding is the rune [RuneError], of width 1. *)
Fixpoint runes (s : list Z) : list Z :=
  match s with
  | [] => []
  | b0 :: s0 =>
      if bool_decide (b0 < 0x80) then b0 :: runes s0
      else
        let '(width, lo, hi) := first b0 in
        match width, s0 with
        | 2%nat, b1 :: s1 =>
            if bool_decide (lo <= b1 <= hi)
            then Z.lor (Z.shiftl (Z.land b0 0x1F) 6) (Z.land b1 0x3F) :: runes s1
            else RuneError :: runes s0
        | 3%nat, b1 :: b2 :: s2 =>
            if bool_decide (lo <= b1 <= hi) && continuation b2
            then Z.lor (Z.shiftl (Z.land b0 0x0F) 12)
                   (Z.lor (Z.shiftl (Z.land b1 0x3F) 6) (Z.land b2 0x3F))
                 :: runes s2
            else RuneError :: runes s0
        | 4%nat, b1 :: b2 :: b3 :: s3 =>
            if bool_decide (lo <= b1 <= hi) && continuation b2 && continuation b3
            then Z.lor (Z.shiftl (Z.land b0 0x07) 18)
                   (Z.lor (Z.shiftl (Z.land b1 0x3F) 12)
                      (Z.lor (Z.shiftl (Z.land b2 0x3F) 6) (Z.land b3 0x3F)))
                 :: runes s3
            else RuneError :: runes s0
        | _, _ => RuneError :: runes s0
        end
  end.

(** [utf8.AppendRune] for a rune [r >= 0]: a surrogate and a rune above
    [MaxRune] are written as [RuneError]. *)
Definition encode (r : Z) : list Z :=
  if bool_decide (r <= 0x7F) then [r]
  else if bool_decide (r <= 0x7FF) then
    [Z.lor 0xC0 (Z.shiftr r 6); Z.lor 0x80 (Z.land r 0x3F)]
  else if bool_decide (MaxRune < r) || bool_decide (0xD800 <= r <= 0xDFFF) then
    [0xEF; 0xBF; 0xBD]
  else if bool_decide (r <= 0xFFFF) then
    [Z.lor 0xE0 (Z.shiftr r 12); Z.lor 0x80 (Z.land (Z.shiftr r 6) 0x3F);
     Z.lor 0x80 (Z.land r 0x3F)]
  else
    [Z.lor 0xF0 (Z.shiftr r 18); Z.lor 0x80 (Z.land (Z.shiftr r 12) 0x3F);
     Z.lor 0x80 (Z.land (Z.shiftr r 6) 0x3F); Z.lor 0x80 (Z.land r 0x3F)].

(** *** Package unicode *)

(** The runes of [unicode.IsSpace]: the Latin-1 spaces and the other runes
    of the property White_Space. *)
Definition spaces : list Z :=
  [0x09; 0x0A; 0x0B; 0x0C; 0x0D; 0x20; 0x85; 0xA0; 0x1680;
   0x2000; 0x2001; 0x2002; 0x2003; 0x2004; 0x2005; 0x2006; 0x2007; 0x2008;
   0x2009; 0x200A; 0x2028; 0x2029; 0x202F; 0x205F; 0x3000].

(** The case tables of package unicode, which are data of the Go release:
    [To_UpperCase r] is [unicode.To(unicode.UpperCase, r)], consulted for
    runes above [MaxASCII] only. *)
Class CaseTable : Type := { To_UpperCase : Z -> Z }.

(** [unicode.ToUpper]. *)
Definition ToUpperRune `{CaseTable} (r : Z) : Z :=
  if bool_decide (r <= 0x7F) then
    if bool_decide (0x61 <= r <= 0x7A) then r - 0x20 else r
  else To_UpperCase r.

(** *** Package strings *)

Fixpoint starts_with (p s : list Z) : bool :=
  match p, s with
  | [], _ => true
  | b :: p', c :: s' => bool_decide (b = c) && starts_with p' s'
  | _ :: _, [] => false
  end.

(** Removes, at most [fuel] times, an element of [encodings] that the
    string starts with. *)
Fixpoint trim (encodings : list (list Z)) (fuel : nat) (s : list Z) : list Z :=
  match fuel with
  | O => s
  | S fuel' =>
      match List.find (fun p => starts_with p s) encodings with
      | Some p => trim encodings fuel' (drop (length p) s)
      | None => s
      end
  end.

(** [strings.TrimSpace]: the leading and the trailing runes of
    [unicode.IsSpace] removed.  A leading rune is a space when the string
    starts with the encoding of one (only a well-formed encoding decodes to
    it); a trailing rune, which [utf8.DecodeLastRuneInString] finds by going
    back to the nearest byte that starts an encoding, is a space when the
    string ends with the encoding of one. *)
Definition TrimSpace (s : string) : string :=
  let left := trim (encode <$> spaces) (length (bytes s)) (bytes s) in
  of_bytes
    (rev (trim ((fun r => rev (encode r)) <$> spaces) (length left) (rev left))).

(** [strings.Map]: the mapping applied rune by rune, a negative result
    dropped, every other one encoded. *)
Definition Map (mapping : Z -> Z) (s : string) : string :=
  of_bytes
    (concat ((fun c => let r := mapping c in
                       if bool_decide (0 <= r) then encode r else [])
             <$> runes (bytes s))).

(** [strings.ToUpper]: [Map(unicode.ToUpper, s)], which on a string of ASCII
    bytes is the byte-wise mapping of [a-z] that the function does itself. *)
Definition ToUpper `{CaseTable} (s : string) : string := Map ToUpperRune s.

(** *** Package strconv *)

Definition max_uint64 : Z := 2 ^ 64 - 1.

(** The digit loop of [strconv.ParseUint] in base 10: a byte that is not a
    digit is a syntax error, and the first digit that takes the value past
    [max_uint64] is a range error, each reported where it is met. *)
Fixpoint parse_digits (s : list ascii) (n : Z) : Z * option error :=
  match s with
  | [] => (n, None)
  | c :: s' =>
      let d := Z.of_nat (nat_of_ascii c) - 48 in
      if bool_decide (0 <= d <= 9) then
        if bool_decide (n * 10 + d > max_uint64) then (max_uint64, Some ErrRange)
        else parse_digits s' (n * 10 + d)
      else (0, Some ErrSyntax)
  end.

Definition ParseUint (s : list ascii) : Z * option error :=
  match s with
  | [] => (0, Some ErrSyntax)
  | _ => parse_digits s 0
  end.

Definition ParseInt (s : string) : Z * option error :=
  match String.list_ascii_of_string s with
  | [] => (0, Some ErrSyntax)
  | c :: s' =>
      let neg := bool_decide (c = "-"%char) in
      let digits :=
        if bool_decide (c = "+"%char) || neg then s' else c :: s' in
      let '(un, err) := ParseUint digits in
      match err with
      | Some ErrRange =>
          if neg then (Int64.min_int, Some ErrRange)
          else (Int64.max_int, Some ErrRange)
      | Some e => (0, Some e)
      | None =>
          let cutoff := 2 ^ 63 in
          if negb neg && bool_decide (un >= cutoff) then (cutoff - 1, Some ErrRange)
          else if neg && bool_decide (un > cutoff) then (- cutoff, Some ErrRange)
          else (if neg then - un else un, None)
      end
  end.

(** [fmt.Sprintf("%d", n)]. *)
Definition format_int (n : Z) : string :=
  DecimalString.NilZero.string_of_int (Z.to_int n).

End gostd.

(** ** Package service (the CSV processor) *)

Module service.
Import domain eventbus gostd.

Definition parseTransaction `{CaseTable} (record : list string) (lineNumber : Z)
  : Transaction.t * option error :=
  match record with
  | [r0; r1; r2; r3; r4; r5] =>
      let '(timestamp, err) := ParseInt (TrimSpace r0) in
      match err with
      | Some e => (Transaction.zero, Some (ErrInvalidTimestamp e))
      | None =>
          let '(amount, err) := ParseInt (TrimSpace r3) in
          match err with
          | Some e => (Transaction.zero, Some (ErrInvalidAmount e))
          | None =>
              let txType := TrimSpace (ToUpper r2) in
              if bool_decide (txType ≠ TransactionTypeCredit)
                 && bool_decide (txType ≠ TransactionTypeDebit)
              then (Transaction.zero, Some (ErrInvalidTransactionType txType))
              else
                let status := TrimSpace (ToUpper r4) in
                if bool_decide (status ≠ TransactionStatusSuccess)
                   && bool_decide (status ≠ TransactionStatusFailed)
                   && bool_decide (status ≠ TransactionStatusPending)
                then (Transaction.zero, Some (ErrInvalidTxStatus status))
                else
                  (Transaction.Build timestamp (TrimSpace r1) txType amount
                     status (TrimSpace r5),
                   None)
          end
      end
  | _ => (Transaction.zero, Some (ErrRecordFormat (Z.of_nat (length record))))
  end.

(** What one call of [csvReader.Read()] gives: a record, an error other
    than [io.EOF], or [io.EOF]. *)
Inductive read_result : Type :=
| ReadRecord (record : list string)
| ReadError (e : error)
| ReadEOF.

(** The CSV reader over its input stream, as the result of its successive
    [Read] calls, numbered from 0. *)
Definition Reader := nat -> read_result.

(** The three counters of [ProcessStream]. *)
Record counters : Type := mkCounters {
  lineNumber : Z;
  successCount : Z;
  errorCount : Z
}.

(** The event built for a parsed record; [now] is what [time.Now()]
    returns at that moment. *)
Definition make_event (now : Time) (uploadID : string) (tx : Transaction.t)
    (lineNumber : Z) : Event.t :=
  Event.Build (uploadID +:+ "-" +:+ format_int lineNumber)
    EventTypeReconciliation
    (PayloadReconciliation (ReconciliationEvent.Build uploadID tx lineNumber))
    now 0.

Section ProcessStream.
Context {B E R : Type} `{EventBus B E} `{Repository R} `{!CaseTable}.

(** What a run observes of its surroundings, by the number [pos] of the
    iteration (the number of its [Read] call): [now pos] is what
    [time.Now()] returns when the event of that iteration is built,
    [env pos] is what the environment of the bus contributes to the
    [Publish] of that iteration, and [ctx pos] is [ctx.Err()] during that
    [Publish].  [nowAtEnd] is what [time.Now()] returns in the update of the
    status after the loop. *)
Variable now : nat -> Time.
Variable nowAtEnd : Time.
Variable env : nat -> E.
Variable ctx : nat -> option error.
Variable uploadID : string.
Variable reader : Reader.

(** The read loop, entered before [Read] call number [pos].  The loop has
    no bound of its own: [fuel] bounds the number of iterations, and
    [None] says that it was not enough to reach [io.EOF]. *)
Fixpoint read_loop (fuel : nat) (pos : nat) (c : counters) (bus : B)
  : option (counters * B) :=
  match fuel with
  | O => None
  | S fuel' =>
      match reader pos with
      | ReadEOF => Some (c, bus)
      | ReadError _ =>
          read_loop fuel' (S pos)
            (mkCounters (lineNumber c) (successCount c)
               (Int64.add (errorCount c) 1))
            bus
      | ReadRecord record =>
          let lineNumber' := Int64.add (lineNumber c) 1 in
          let '(tx, err) := parseTransaction record lineNumber' in
          match err with
          | Some _ =>
              read_loop fuel' (S pos)
                (mkCounters lineNumber' (successCount c)
                   (Int64.add (errorCount c) 1))
                bus
          | None =>
              let '(bus', err) :=
                bus_Publish (env pos) (ctx pos)
                  (make_event (now pos) uploadID tx lineNumber') bus in
              match err with
              | Some _ =>
                  read_loop fuel' (S pos)
                    (mkCounters lineNumber' (successCount c)
                       (Int64.add (errorCount c) 1))
                    bus'
              | None =>
                  read_loop fuel' (S pos)
                    (mkCounters lineNumber' (Int64.add (successCount c) 1)
                       (errorCount c))
                    bus'
              end
          end
      end
  end.

(** The status written after the loop. *)
Definition final_status (c : counters) : UploadStatus :=
  if bool_decide (errorCount c > 0) && bool_decide (successCount c = 0)
  then UploadStatusFailed
  else UploadStatusCompleted.

(** [ProcessStream]: [None] when [fuel] iterations do not reach
    [io.EOF]; otherwise the final bus and repository, the counters, and
    the returned error. *)
Definition ProcessStream (fuel : nat) (bus : B) (repo : R)
  : option (B * R * counters * option error) :=
  match read_loop fuel 0%nat (mkCounters 0 0 0) bus with
  | None => None
  | Some (c, bus') =>
      let '(repo', _) :=
        if bool_decide (errorCount c > 0) && bool_decide (successCount c = 0)
        then repo_UpdateUploadStatus nowAtEnd uploadID UploadStatusFailed repo
        else repo_UpdateUploadStatus nowAtEnd uploadID UploadStatusCompleted repo in
      Some (bus', repo', c, None)
  end.
End ProcessStream.

End service.

(** * Specification-level definitions

    The quantities the specification speaks of, written from its words, to
    be compared with what the code computes. *)

Module spec.
Import domain storage.

(** [+amount] for CREDIT and [-amount] for DEBIT. *)
Definition signed_amount (tx : Transaction.t) : Z :=
  if decide (Transaction.Type_ tx = TransactionTypeCredit) then Transaction.Amount tx
  else if decide (Transaction.Type_ tx = TransactionTypeDebit) then - Transaction.Amount tx
  else 0.

Definition is_success (t : TransactionWithLine.t) : Prop :=
  Transaction.Status (TransactionWithLine.Transaction_ t) = TransactionStatusSuccess.

#[export] Instance is_success_dec t : Decision (is_success t).
Proof. unfold is_success. apply _. Defined.

(** The exact (unbounded) sum of the signed amounts of the SUCCESS rows. *)
Definition success_sum (txs : list TransactionWithLine.t) : Z :=
  foldr Z.add 0
    (map (fun t => signed_amount (TransactionWithLine.Transaction_ t))
       (filter is_success txs)).

(** The rows [GetIssues] is specified to select: without a filter those
    whose status is FAILED or PENDING, with a filter those of that status. *)
Definition is_issue (status : option TransactionStatus) (t : TransactionWithLine.t)
  : Prop :=
  let st := Transaction.Status (TransactionWithLine.Transaction_ t) in
  match status with
  | None => st = TransactionStatusFailed \/ st = TransactionStatusPending
  | Some wanted => st = wanted
  end.

#[export] Instance is_issue_dec status t : Decision (is_issue status t).
Proof. unfold is_issue. destruct status; apply _. Defined.

(** A stored row paired with its line number. *)
Definition to_issue (t : TransactionWithLine.t) : IssueTransaction.t :=
  IssueTransaction.Build (TransactionWithLine.Transaction_ t)
    (TransactionWithLine.LineNumber t).

(** The filtered candidate list, in insertion order. *)
Definition candidates (status : option TransactionStatus)
    (txs : list TransactionWithLine.t) : list IssueTransaction.t :=
  map to_issue (filter (is_issue status) txs).

(** The filters the specification admits: none, FAILED or PENDING. *)
Definition issue_filter (status : option TransactionStatus) : Prop :=
  status = None \/ status = Some TransactionStatusFailed
  \/ status = Some TransactionStatusPending.

(** Page [page] of [l] at [perPage] rows a page, counted in unbounded
    integers: [perPage] rows from index [(page - 1) * perPage]. *)
Definition page_of {A : Type} (l : list A) (page perPage : Z) : list A :=
  take (Z.to_nat perPage) (drop (Z.to_nat ((page - 1) * perPage)) l).

(** The page window can be computed without leaving [int]. *)
Definition window_fits (page perPage : Z) : Prop :=
  1 <= page /\ 1 <= perPage /\ (page - 1) * perPage + perPage <= Int64.max_int.

(** The number of pages of a list of [total] rows: the ceiling of
    [total / perPage]. *)
Definition page_count (total perPage : Z) : nat :=
  Z.to_nat ((total + perPage - 1) / perPage).

(** Test data: a transaction of a given type, amount and status. *)
Definition mk_tx (type_ : TransactionType) (amount : Z) (status : TransactionStatus)
  : Transaction.t :=
  Transaction.Build 1674507883 "JOHN DOE" type_ amount status "row".

(** The store after one upload ["u"] has received two SUCCESS credits of
    [2^63 - 1] each. *)
Definition overflowing_store : MemoryStore :=
  run [OpCreateUpload 0 "u";
       OpAddTransaction "u" (mk_tx TransactionTypeCredit Int64.max_int TransactionStatusSuccess) 1;
       OpAddTransaction "u" (mk_tx TransactionTypeCredit Int64.max_int TransactionStatusSuccess) 2].

(** The store of scenario S1: a debit and a credit that succeeded, a failed
    debit and a pending credit. *)
Definition s1_store : MemoryStore :=
  run [OpCreateUpload 0 "u";
       OpAddTransaction "u" (mk_tx TransactionTypeDebit 250000 TransactionStatusSuccess) 1;
       OpAddTransaction "u" (mk_tx TransactionTypeCredit 500000 TransactionStatusSuccess) 2;
       OpAddTransaction "u" (mk_tx TransactionTypeDebit 100000 TransactionStatusFailed) 3;
       OpAddTransaction "u" (mk_tx TransactionTypeCredit 300000 TransactionStatusPending) 4].

(** One committed application of a reconciliation event to the store: the
    row appended, the event id marked, the row counter incremented, once
    each. *)
Definition applied_once (eventID : string) (payload : eventbus.ReconciliationEvent.t)
    (s : MemoryStore) : MemoryStore :=
  let uploadID := eventbus.ReconciliationEvent.UploadID payload in
  fst (IncrementProcessedRows uploadID
         (fst (MarkEventProcessed eventID
                 (fst (AddTransaction uploadID
                         (eventbus.ReconciliationEvent.Transaction_ payload)
                         (eventbus.ReconciliationEvent.LineNumber payload) s))))).

(** Scenario S5: two events with the same id and different payloads. *)
Definition s5_event (amount : Z) : eventbus.Event.t :=
  eventbus.Event.Build "u-1" eventbus.EventTypeReconciliation
    (eventbus.PayloadReconciliation
       (eventbus.ReconciliationEvent.Build "u"
          (mk_tx TransactionTypeCredit amount TransactionStatusSuccess) 1))
    0 0.

(** The state the operation [fn] leaves after [k] calls from [s], and the
    error of call number [k] (counted from 0). *)
Definition state_after {St : Type} (fn : St -> St * option error) (s : St) (k : nat)
  : St :=
  Nat.iter k (fun s => fst (fn s)) s.

Definition outcome {St : Type} (fn : St -> St * option error) (s : St) (k : nat)
  : option error :=
  snd (fn (state_after fn s k)).

(** The delays slept after the failed attempts [first], ..., [first + n - 1]. *)
Definition backoffs (cfg : retry.Config) (first : Z) (n : nat) : list retry.Duration :=
  map (fun i => retry.calculateBackoff (first + Z.of_nat i)
                  (retry.BaseDelay cfg) (retry.MaxDelay cfg))
    (seq 0 n).

(** Attempts [0], ..., [k - 1] fail and the sleeps after them run to the
    timer. *)
Definition fails_through {St : Type} (ctx_done : Z -> option error)
    (fn : St -> St * option error) (s : St) (k : nat) : Prop :=
  forall i : nat, (i < k)%nat ->
    outcome fn s i <> None /\ ctx_done (Z.of_nat i) = None.

(** An operation that fails on every call, and a context that is never
    cancelled. *)
Definition always_failing (s : unit) : unit * option error := (s, Some (ErrIO "down")).
Definition never_done (attempt : Z) : option error := None.

(** A bus with one subscription to the reconciliation events and queues of
    capacity [channelBuffer], on a runtime that makes channels of that
    size. *)
Definition subscribed_bus (channelBuffer : Z) : eventbus.eventBus :=
  match eventbus.Subscribe channelBuffer eventbus.EventTypeReconciliation
          (eventbus.NewReconciliationConsumer 10) (eventbus.New channelBuffer) with
  | Returns (eb, _) => eb
  | Panics => eventbus.New channelBuffer
  end.

(** The queue has room for one more event. *)
Definition has_room (ch : eventbus.chan) : Prop :=
  Z.of_nat (length (eventbus.buf ch)) < eventbus.cap ch.

(** A reader every [Read] of which fails with the same error other than
    [io.EOF], as a file closed under the processor does. *)
Definition failing_reader : service.Reader :=
  fun _ => service.ReadError (ErrIO "file already closed").

(** A reader over the given records, then [io.EOF]. *)
Definition reader_of (records : list (list string)) : service.Reader :=
  fun i =>
    match records !! i with
    | Some record => service.ReadRecord record
    | None => service.ReadEOF
    end.

(** The first row of scenario S1, with its amount negated. *)
Definition negative_record : list string :=
  ["1674507883"; "JOHN DOE"; "DEBIT"; "-250000"; "SUCCESS"; "restaurant"].

(** Scenario S6: a five-field row between two valid rows; the CSV reader
    reports the short row as a field-count error. *)
Definition s6_reader : service.Reader :=
  fun i =>
    match i with
    | 0%nat => service.ReadRecord
                 ["1674507883"; "JOHN DOE"; "DEBIT"; "250000"; "SUCCESS"; "restaurant"]
    | 1%nat => service.ReadError ErrInvalidCSVFormat
    | 2%nat => service.ReadRecord
                 ["1674507884"; "JANE DOE"; "CREDIT"; "500000"; "SUCCESS"; "salary"]
    | _ => service.ReadEOF
    end.

(** [ProcessStream] wired as the server wires it: the in-process bus and
    the in-memory store. *)
Definition ProcessStream_mem `{gostd.CaseTable} (env : nat -> eventbus.select_env)
    (now : nat -> Time) (nowAtEnd : Time) (ctx : nat -> option error)
    (uploadID : string) (reader : service.Reader) (fuel : nat)
    (bus : eventbus.eventBus) (repo : MemoryStore)
  : option (eventbus.eventBus * MemoryStore * service.counters * option error) :=
  @service.ProcessStream eventbus.eventBus eventbus.select_env MemoryStore
    eventbus.eventBus_EventBus MemoryStore_Repository _
    now nowAtEnd env ctx uploadID reader fuel bus repo.

(** Surroundings for the worked runs: no worker parked at any [Publish], a
    context that stays live, and a clock that advances by one unit per
    iteration. *)
Definition quiet : nat -> eventbus.select_env :=
  fun _ => eventbus.mkEnv false false.
Definition live : nat -> option error := fun _ => None.
Definition ticking (start : Time) : nat -> Time := fun pos => start + Z.of_nat pos.

(** A fragment of the case table for the worked examples: the two runes
    above [MaxASCII] whose upper case is an ASCII letter, dotless i and
    long s. *)
Definition example_table : gostd.CaseTable :=
  {| gostd.To_UpperCase r :=
       if bool_decide (r = 0x131) then 0x49
       else if bool_decide (r = 0x17F) then 0x53
       else r |}.

(** The status of an upload in the store, if it has one. *)
Definition status_of (s : MemoryStore) (uploadID : string) : option UploadStatus :=
  Upload.Status <$> uploads s !! uploadID.

End spec.

(** * Definitions for the further properties *)

Module props.
Import domain storage.

(** What every store reached from [NewMemoryStore] satisfies. *)
Definition store_ok (s : MemoryStore) : Prop :=
  dom (uploads s) = dom (transactions s)
  /\ (forall id u, uploads s !! id = Some u ->
        Upload.ID u = id /\ Upload.TotalRows u = 0
        /\ Int64.in_range (Upload.ProcessedRows u))
  /\ (forall id b, processedEvents s !! id = Some b -> b = true).

(** An operation that creates the upload [uploadID] (again). *)
Definition creates (uploadID : string) (o : op) : Prop :=
  match o with
  | OpCreateUpload _ id => id = uploadID
  | _ => False
  end.

(** [n] calls of [IncrementProcessedRows] in a row. *)
Definition increment_times (n : nat) (uploadID : string) (s : MemoryStore)
  : MemoryStore :=
  Nat.iter n (fun s => fst (IncrementProcessedRows uploadID s)) s.

(** [AddTransaction] for each row of a list, in order. *)
Definition add_all (uploadID : string) (rows : list TransactionWithLine.t)
    (s : MemoryStore) : MemoryStore :=
  fold_left
    (fun s row =>
       fst (AddTransaction uploadID (TransactionWithLine.Transaction_ row)
              (TransactionWithLine.LineNumber row) s))
    rows s.

(** The operations that write neither a transaction list nor the set of
    uploads. *)
Definition bookkeeping (o : op) : Prop :=
  match o with
  | OpUpdateUploadStatus _ _ _ | OpIncrementProcessedRows _
  | OpMarkEventProcessed _ => True
  | _ => False
  end.

(** The status of an issue row. *)
Definition issue_status (it : IssueTransaction.t) : TransactionStatus :=
  Transaction.Status (IssueTransaction.Transaction_ it).

(** [perPage] as [GetIssues] uses it. *)
Definition effective_perPage (perPage : Z) : Z :=
  if decide (perPage < 1) then 10 else perPage.

(** How one run of the loop ends, by the number [k] of calls it made. *)
Definition loop_ending {St : Type} (ctx_done : Z -> option error)
    (fn : St -> St * option error) (cfg : retry.Config)
    (remaining : nat) (attempt : Z) (lastErr : option error) (s : St)
    (k : nat) (r : option error) : Prop :=
  (k = 0%nat /\ remaining = 0%nat /\ r = lastErr)
  \/ (r = None /\ exists j, k = S j /\ spec.outcome fn s j = None)
  \/ (exists j e, k = S j /\ r = Some e /\ spec.outcome fn s j <> None
                  /\ ctx_done (attempt + Z.of_nat j) = Some e
                  /\ (k < remaining)%nat)
  \/ (exists j e, k = S j /\ spec.outcome fn s j = Some e
                  /\ r = Some (ErrMaxRetriesExceeded (retry.MaxAttempts cfg) e)
                  /\ k = remaining).

(** [Consume] for each event of a list, in order, with the error of each
    call. *)
Fixpoint consume_all (events : list eventbus.Event.t) (s : MemoryStore)
  : MemoryStore * list (option error) :=
  match events with
  | [] => (s, [])
  | event :: rest =>
      let '(s', err) := eventbus.Consume event s in
      let '(s'', errs) := consume_all rest s' in
      (s'', err :: errs)
  end.

(** The events of a list that are the first with their id, among ids not in
    [seen]. *)
Fixpoint first_by_id (seen : gset string) (events : list eventbus.Event.t)
  : list eventbus.Event.t :=
  match events with
  | [] => []
  | event :: rest =>
      if decide (eventbus.Event.ID event ∈ seen) then first_by_id seen rest
      else event :: first_by_id ({[eventbus.Event.ID event]} ∪ seen) rest
  end.

(** The rows the events of a list carry for one upload. *)
Definition rows_for (uploadID : string) (events : list eventbus.Event.t)
  : list TransactionWithLine.t :=
  omap
    (fun event =>
       match eventbus.Event.Payload event with
       | eventbus.PayloadReconciliation p =>
           if decide (eventbus.ReconciliationEvent.UploadID p = uploadID)
           then Some (TransactionWithLine.Build
                        (eventbus.ReconciliationEvent.Transaction_ p)
                        (eventbus.ReconciliationEvent.LineNumber p))
           else None
       | eventbus.PayloadOther _ => None
       end)
    events.

(** An event that carries a reconciliation payload for an upload of the
    store. *)
Definition applicable (s : MemoryStore) (event : eventbus.Event.t) : Prop :=
  exists p, eventbus.Event.Payload event = eventbus.PayloadReconciliation p
            /\ is_Some (uploads s !! eventbus.ReconciliationEvent.UploadID p).

(** An event no attempt can apply: its payload is not a reconciliation
    event, or its upload is not in the store. *)
Definition poison_cause (s : MemoryStore) (event : eventbus.Event.t) : option error :=
  match eventbus.Event.Payload event with
  | eventbus.PayloadOther _ => Some ErrInvalidPayloadType
  | eventbus.PayloadReconciliation p =>
      match uploads s !! eventbus.ReconciliationEvent.UploadID p with
      | None => Some ErrUploadNotFound
      | Some _ => None
      end
  end.

(** An event with a payload of another type. *)
Definition poison_event : eventbus.Event.t :=
  eventbus.Event.Build "u-9" eventbus.EventTypeReconciliation
    (eventbus.PayloadOther "string") 0 0.

(** The number of records among the results of the [Read] calls numbered
    [pos], ..., [pos + n - 1]. *)
Fixpoint record_count (reader : service.Reader) (pos n : nat) : Z :=
  match n with
  | O => 0
  | S n' =>
      (match reader pos with service.ReadRecord _ => 1 | _ => 0 end)
      + record_count reader (S pos) n'
  end.

(** The reader reports [io.EOF] for the first time at its call number [n]. *)
Definition first_eof (reader : service.Reader) (n : nat) : Prop :=
  reader n = service.ReadEOF
  /\ forall i, (i < n)%nat -> reader i <> service.ReadEOF.

(** The line number an event carries. *)
Definition event_line (event : eventbus.Event.t) : Z :=
  match eventbus.Event.Payload event with
  | eventbus.PayloadReconciliation p => eventbus.ReconciliationEvent.LineNumber p
  | eventbus.PayloadOther _ => 0
  end.


(** No queue of the bus holds more events than its capacity. *)
Definition within_capacity (eb : eventbus.eventBus) : Prop :=
  forall ty ch, eventbus.channels eb !! ty = Some ch ->
    Z.of_nat (length (eventbus.buf ch)) <= eventbus.cap ch.

(** An event as [ProcessStream] builds it for the upload [uploadID] from a
    record that the reader gives at call number [pos] or later: the record
    parses, at the line number of the event, to the transaction of the
    event, and the event is stamped with the time of that iteration. *)
Definition built_for `{gostd.CaseTable} (now : nat -> Time) (uploadID : string)
    (reader : service.Reader) (pos : nat) (event : eventbus.Event.t) : Prop :=
  exists i record tx,
    (pos <= i)%nat
    /\ reader i = service.ReadRecord record
    /\ service.parseTransaction record (event_line event) = (tx, None)
    /\ event = service.make_event (now i) uploadID tx (event_line event).

(** The read loop on the in-process bus. *)
Definition read_loop_mem `{gostd.CaseTable} (env : nat -> eventbus.select_env)
    (now : nat -> Time) (ctx : nat -> option error) (uploadID : string)
    (reader : service.Reader) (fuel pos : nat) (c : service.counters)
    (bus : eventbus.eventBus)
  : option (service.counters * eventbus.eventBus) :=
  @service.read_loop eventbus.eventBus eventbus.select_env
    eventbus.eventBus_EventBus _
    now env ctx uploadID reader fuel pos c bus.

(** What the read loop, entered before [Read] call number [pos] with the
    counters [c], has done to the bus when it ends: nothing outside the
    queue of reconciliation events, to which it has appended events built for
    the upload, with line numbers above the one it started from, strictly
    increasing. *)
Definition loop_appended `{gostd.CaseTable} (now : nat -> Time) (uploadID : string)
    (reader : service.Reader) (pos : nat)
    (c c' : service.counters) (bus bus' : eventbus.eventBus) : Prop :=
  eventbus.consumers bus' = eventbus.consumers bus
  /\ eventbus.channelBuffer bus' = eventbus.channelBuffer bus
  /\ eventbus.started bus' = eventbus.started bus
  /\ (forall ty, ty <> eventbus.EventTypeReconciliation ->
        eventbus.channels bus' !! ty = eventbus.channels bus !! ty)
  /\ service.lineNumber c <= service.lineNumber c'
  /\ exists evs,
       eventbus.queue_of bus' eventbus.EventTypeReconciliation
       = eventbus.queue_of bus eventbus.EventTypeReconciliation ++ evs
       /\ Forall (fun ev => built_for now uploadID reader pos ev
                            /\ service.lineNumber c < event_line ev
                               <= service.lineNumber c') evs
       /\ Sorted.StronglySorted (fun a b => event_line a < event_line b) evs.

End props.

(** * Theorems *)

Import domain storage eventbus service spec.

(** The worked examples, which are closed, run with the table fragment
    of [example_table]; every other statement is for any table. *)
#[local] Existing Instance example_table.

(** ** Two's-complement arithmetic *)

Lemma wrap_in_range z : Int64.in_range (Int64.wrap z).
Proof.
  unfold Int64.in_range, Int64.wrap, Int64.min_int, Int64.max_int.
  pose proof (Z.mod_pos_bound (z + 2 ^ 63) (2 ^ 64)). lia.
Qed.

Lemma wrap_small z : Int64.in_range z -> Int64.wrap z = z.
Proof.
  unfold Int64.in_range, Int64.wrap, Int64.min_int, Int64.max_int. intros Hz.
  rewrite Z.mod_small; lia.
Qed.

Lemma wrap_add_l a b : Int64.wrap (Int64.wrap a + b) = Int64.wrap (a + b).
Proof.
  unfold Int64.wrap.
  replace ((a + 2 ^ 63) mod 2 ^ 64 - 2 ^ 63 + b + 2 ^ 63)
    with ((a + 2 ^ 63) mod 2 ^ 64 + b) by lia.
  rewrite Zplus_mod_idemp_l. do 2 f_equal. lia.
Qed.

(** ** The ledger store: balance *)

Lemma balance_step_wrap (acc : Z) (t : TransactionWithLine.t) :
  Int64.wrap (balance_step (Int64.wrap acc) t)
  = Int64.wrap
      (acc + (if decide (is_success t)
              then signed_amount (TransactionWithLine.Transaction_ t) else 0)).
Proof.
  unfold balance_step, is_success, signed_amount, Int64.add, Int64.sub.
  repeat case_decide; try congruence.
  - rewrite (wrap_small (Int64.wrap _)) by apply wrap_in_range. apply wrap_add_l.
  - rewrite (wrap_small (Int64.wrap _)) by apply wrap_in_range.
    replace (Int64.wrap acc - Transaction.Amount (TransactionWithLine.Transaction_ t))
      with (Int64.wrap acc + - Transaction.Amount (TransactionWithLine.Transaction_ t)) by lia.
    apply wrap_add_l.
  - rewrite wrap_small by apply wrap_in_range. f_equal. lia.
  - rewrite wrap_small by apply wrap_in_range. f_equal. lia.
Qed.

Lemma balance_step_in_range acc t :
  Int64.in_range acc -> Int64.in_range (balance_step acc t).
Proof.
  intros Hacc. unfold balance_step, Int64.add, Int64.sub.
  repeat case_decide; auto using wrap_in_range.
Qed.

Lemma fold_balance_wrap txs acc :
  Int64.in_range acc ->
  fold_left balance_step txs acc = Int64.wrap (acc + success_sum txs).
Proof.
  revert acc. induction txs as [|t txs IH]; intros acc Hacc; simpl.
  - unfold success_sum. simpl. rewrite Z.add_0_r. symmetry. by apply wrap_small.
  - rewrite IH by by apply balance_step_in_range.
    rewrite <- (wrap_small acc) at 1 by done.
    rewrite <- wrap_add_l, balance_step_wrap, wrap_add_l.
    f_equal. unfold success_sum. rewrite filter_cons.
    case_decide; simpl; lia.
Qed.

(** C1, as the specification states it, fails: two SUCCESS credits of
    [2^63 - 1] sum to [2^64 - 2], and [GetBalance] returns [-2]. *)
Lemma GetBalance_exact_sum_counterexample :
  GetBalance "u" overflowing_store = (-2, None)
  /\ success_sum (txs_of overflowing_store "u") = 2 ^ 64 - 2
  /\ GetBalance "u" overflowing_store
     <> (success_sum (txs_of overflowing_store "u"), None).
Proof. vm_compute. repeat split; congruence. Qed.

(** C1, amended: [GetBalance] fails with [ErrUploadNotFound] exactly when the
    upload id is absent from the store; for a present id it returns the sum,
    over the upload's SUCCESS transactions, of [+amount] for CREDIT and
    [-amount] for DEBIT, reduced to [int64] by two's-complement wrap-around,
    which is the sum itself whenever the sum fits in [int64].  Rows that are
    not SUCCESS contribute 0 (appending one leaves the balance as it was) and
    an empty transaction list gives 0. *)
Theorem GetBalance_wrapped_sum (s : MemoryStore) (uploadID : string) :
  GetBalance uploadID s
  = match uploads s !! uploadID with
    | None => (0, Some ErrUploadNotFound)
    | Some _ => (Int64.wrap (success_sum (txs_of s uploadID)), None)
    end
  /\ (Int64.in_range (success_sum (txs_of s uploadID)) ->
      is_Some (uploads s !! uploadID) ->
      GetBalance uploadID s = (success_sum (txs_of s uploadID), None))
  /\ (forall tx lineNumber,
        Transaction.Status tx <> TransactionStatusSuccess ->
        GetBalance uploadID (fst (AddTransaction uploadID tx lineNumber s))
        = GetBalance uploadID s)
  /\ (txs_of s uploadID = [] -> is_Some (uploads s !! uploadID) ->
      GetBalance uploadID s = (0, None)).
Proof.
  assert (Hmain : GetBalance uploadID s
    = match uploads s !! uploadID with
      | None => (0, Some ErrUploadNotFound)
      | Some _ => (Int64.wrap (success_sum (txs_of s uploadID)), None)
      end).
  { unfold GetBalance, txs_of. destruct (uploads s !! uploadID); [|done].
    destruct (transactions s !! uploadID) as [txs|]; simpl.
    - rewrite fold_balance_wrap by (vm_compute; split; congruence). done.
    - done. }
  split; [exact Hmain|]. split; [|split].
  - intros Hr [u Hu]. rewrite Hmain, Hu. by rewrite wrap_small.
  - intros tx ln Hns. unfold AddTransaction.
    destruct (uploads s !! uploadID) as [u|] eqn:Hu; [|done]. simpl.
    unfold GetBalance at 1. simpl. rewrite Hu, lookup_insert_eq.
    rewrite fold_left_app. simpl.
    unfold balance_step at 1. simpl. rewrite decide_False by done.
    unfold GetBalance, txs_of. rewrite Hu.
    by destruct (transactions s !! uploadID).
  - intros Hnil [u Hu]. rewrite Hmain, Hu, Hnil. done.
Qed.

Lemma GetBalance_wrapped_sum_witness :
  GetBalance "u" s1_store = (250000, None)
  /\ GetBalance "u" (fst (AddTransaction "u"
                            (mk_tx TransactionTypeCredit 7 TransactionStatusFailed) 5 s1_store))
     = GetBalance "u" s1_store.
Proof.
  destruct (GetBalance_wrapped_sum s1_store "u") as (_ & Hexact & Hskip & _).
  split.
  - apply Hexact; [vm_compute; split; congruence | vm_compute; eauto].
  - apply Hskip. vm_compute. congruence.
Defined.

(** ** The ledger store: issues and paging *)

Lemma issues_step_candidates status acc t :
  issue_filter status ->
  issues_step status acc t = acc ++ candidates status [t].
Proof.
  intros Hf. unfold issues_step, candidates, is_issue.
  rewrite filter_cons, filter_nil. unfold is_issue.
  destruct Hf as [-> | [-> | ->]]; simpl.
  - case_decide; simpl; [done | by rewrite app_nil_r].
  - destruct (decide (_ = TransactionStatusFailed)) as [He|Hne].
    + rewrite bool_decide_eq_false_2 by (intros Hc; by apply Hc).
      rewrite decide_True by by left. done.
    + rewrite bool_decide_eq_true_2 by done. simpl. by rewrite app_nil_r.
  - destruct (decide (_ = TransactionStatusPending)) as [He|Hne].
    + rewrite bool_decide_eq_false_2 by (intros Hc; by apply Hc).
      rewrite decide_True by by right. done.
    + rewrite bool_decide_eq_true_2 by done. simpl. by rewrite app_nil_r.
Qed.

Lemma candidates_app status l1 l2 :
  candidates status (l1 ++ l2) = candidates status l1 ++ candidates status l2.
Proof. unfold candidates. by rewrite filter_app, map_app. Qed.

Lemma issues_fold_candidates status txs acc :
  issue_filter status ->
  fold_left (issues_step status) txs acc = acc ++ candidates status txs.
Proof.
  intros Hf. revert acc. induction txs as [|t txs IH]; intros acc; simpl.
  - unfold candidates. rewrite filter_nil. simpl. by rewrite app_nil_r.
  - rewrite IH, issues_step_candidates by done.
    change (t :: txs) with ([t] ++ txs).
    by rewrite candidates_app, app_assoc.
Qed.

(** Whatever [paginate] returns is a contiguous run of the list, with the
    length of the whole list as total and no error. *)
Lemma paginate_returns l page perPage items total err :
  paginate l page perPage = Returns (items, total, err) ->
  total = Z.of_nat (length l) /\ err = None
  /\ exists a b : nat, items = take b (drop a l).
Proof.
  unfold paginate. case_decide.
  - intros [= <- <- <-]. split; [done|split; [done|]].
    exists 0%nat, 0%nat. by rewrite take_0.
  - destruct (slice _ _ _) as [its|] eqn:Hs; [|done].
    intros [= <- <- <-]. split; [done|split; [done|]].
    unfold slice in Hs. case_decide; [|done].
    apply (f_equal (fun r => match r with Returns x => x | Panics => its end)) in Hs.
    cbv beta iota in Hs. subst its. eauto.
Qed.

(** When the window fits in [int], [paginate] returns the page. *)
Lemma paginate_page l page perPage :
  window_fits page perPage ->
  paginate l page perPage = Returns (page_of l page perPage, Z.of_nat (length l), None).
Proof.
  intros (Hp & Hk & Hfit). unfold paginate, page_of.
  rewrite (decide_False (P := page < 1)), (decide_False (P := perPage < 1)) by lia.
  assert (Hmul : 0 <= (page - 1) * perPage) by nia.
  unfold Int64.mul, Int64.sub, Int64.add.
  assert (Hr : forall z, 0 <= z <= (page - 1) * perPage + perPage -> Int64.wrap z = z).
  { intros z Hz. apply wrap_small. unfold Int64.in_range, Int64.min_int. lia. }
  assert (Hmul' : page - 1 <= (page - 1) * perPage) by nia.
  rewrite (Hr (page - 1)) by lia. rewrite (Hr ((page - 1) * perPage)) by lia.
  rewrite Hr by lia.
  set (start := (page - 1) * perPage) in *. clearbody start.
  case_decide as Hge.
  - rewrite drop_ge by lia. by rewrite take_nil.
  - destruct (decide (start + perPage > Z.of_nat (length l))) as [Hend|Hend];
      unfold slice; rewrite decide_True by lia.
    + do 3 f_equal.
      rewrite (take_ge _ (Z.to_nat perPage)) by (rewrite length_drop; lia).
      apply take_ge. rewrite length_drop. lia.
    + do 4 f_equal. lia.
Qed.

Lemma GetIssues_as_paginate s uploadID page perPage status :
  is_Some (uploads s !! uploadID) ->
  issue_filter status ->
  GetIssues uploadID page perPage status s
  = match transactions s !! uploadID with
    | Some _ => paginate (candidates status (txs_of s uploadID)) page perPage
    | None => Returns ([], 0, None)
    end.
Proof.
  intros [u Hu] Hf. unfold GetIssues, txs_of. rewrite Hu.
  destruct (transactions s !! uploadID) as [txs|]; [|done]. simpl.
  by rewrite issues_fold_candidates.
Qed.

Lemma page_of_nil {A : Type} page perPage : page_of (@nil A) page perPage = [].
Proof. unfold page_of. by rewrite drop_nil, take_nil. Qed.

Lemma GetIssues_window s uploadID page perPage status :
  is_Some (uploads s !! uploadID) ->
  issue_filter status ->
  window_fits page perPage ->
  GetIssues uploadID page perPage status s
  = Returns (page_of (candidates status (txs_of s uploadID)) page perPage,
             Z.of_nat (length (candidates status (txs_of s uploadID))), None).
Proof.
  intros Hu Hf Hw. rewrite GetIssues_as_paginate by done.
  unfold txs_of. destruct (transactions s !! uploadID) as [txs|]; simpl.
  - by apply paginate_page.
  - unfold candidates. rewrite filter_nil. simpl. by rewrite page_of_nil.
Qed.




(** *** The pagination law, for windows that fit in [int] *)

Lemma concat_page_of {A : Type} (l : list A) (perPage : Z) (n : nat) :
  1 <= perPage ->
  concat (map (fun i => page_of l (Z.of_nat i) perPage) (seq 1 n))
  = take (n * Z.to_nat perPage) l.
Proof.
  intros Hk. induction n as [|n IH].
  - simpl. by rewrite take_0.
  - rewrite seq_S, map_app, concat_app, IH. simpl. rewrite app_nil_r.
    unfold page_of.
    replace (Z.of_nat (S n) - 1) with (Z.of_nat n) by lia.
    rewrite Z2Nat.inj_mul, Nat2Z.id by lia.
    rewrite take_take_drop. f_equal. lia.
Qed.

Lemma page_count_covers total perPage :
  0 <= total -> 1 <= perPage ->
  total <= Z.of_nat (page_count total perPage) * perPage <= total + perPage - 1.
Proof.
  intros Ht Hk. unfold page_count.
  rewrite Z2Nat.id by (apply Z.div_pos; lia).
  pose proof (Z.div_mod (total + perPage - 1) perPage ltac:(lia)) as Hdm.
  pose proof (Z.mod_pos_bound (total + perPage - 1) perPage ltac:(lia)) as Hmod.
  nia.
Qed.

(** Pages of a filtered issue list whose windows fit in [int]: page [p] is
    the run of [perPage] rows from index [(p - 1) * perPage]; a page at or
    past the end is empty with the same total; and pages 1 to
    [page_count] concatenate to the whole list. *)
Lemma GetIssues_pagination_law (s : MemoryStore) (uploadID : string)
    (perPage : Z) (status : option TransactionStatus) :
  is_Some (uploads s !! uploadID) ->
  issue_filter status ->
  1 <= perPage ->
  let cand := candidates status (txs_of s uploadID) in
  let total := Z.of_nat (length cand) in
  total + perPage <= Int64.max_int ->
  (forall p, window_fits p perPage ->
     GetIssues uploadID p perPage status s = Returns (page_of cand p perPage, total, None))
  /\ (forall p, window_fits p perPage -> (p - 1) * perPage >= total ->
        GetIssues uploadID p perPage status s = Returns ([], total, None))
  /\ (forall p, 1 <= p <= Z.of_nat (page_count total perPage) -> window_fits p perPage)
  /\ concat (map (fun i => page_of cand (Z.of_nat i) perPage)
               (seq 1 (page_count total perPage)))
     = cand.
Proof.
  intros Hu Hf Hk cand total Hfit.
  pose proof (page_count_covers total perPage ltac:(lia) Hk) as Hcov.
  split; [|split; [|split]].
  - intros p Hw. by apply GetIssues_window.
  - intros p Hw Hge. rewrite GetIssues_window by done. fold cand total.
    do 3 f_equal. unfold page_of. rewrite drop_ge; [by rewrite take_nil|].
    destruct Hw as (? & ? & ?). unfold total in Hge. nia.
  - intros p Hp. unfold window_fits. clearbody total. nia.
  - rewrite concat_page_of by done. apply take_ge.
    apply Nat2Z.inj_le. rewrite Nat2Z.inj_mul, Z2Nat.id by lia.
    fold total. lia.
Qed.

(** C4 fails on the code where [(page - 1) * perPage] leaves [int]: on the
    two issue rows of [s1_store], page [2^62 + 1] at 4 rows a page starts at
    index [2^64], far past the end, yet the product wraps to 0 and the first
    page is returned; at 2 rows a page the product wraps to [-2^63] and the
    slice expression panics. *)
Theorem GetIssues_page_overflow :
  (2 ^ 62 + 1 - 1) * 4 >= Z.of_nat (length (candidates None (txs_of s1_store "u")))
  /\ GetIssues "u" (2 ^ 62 + 1) 4 None s1_store
     = Returns (candidates None (txs_of s1_store "u"), 2, None)
  /\ candidates None (txs_of s1_store "u") <> []
  /\ GetIssues "u" (2 ^ 62 + 1) 2 None s1_store = Panics.
Proof. vm_compute. repeat split; congruence. Qed.

(** ** The ledger store: creating uploads *)

(** C5, as the specification states it, fails: [CreateUpload] on the id of an
    upload that already holds four transactions reports no error, and leaves
    that upload with an empty transaction list. *)
Lemma CreateUpload_duplicate_counterexample :
  is_Some (uploads s1_store !! "u")
  /\ length (txs_of s1_store "u") = 4%nat
  /\ snd (CreateUpload 9 "u" s1_store) = None
  /\ txs_of (fst (CreateUpload 9 "u" s1_store)) "u" = [].
Proof. vm_compute. repeat split; eauto. Qed.

(** C5, amended: [CreateUpload] succeeds for every id, whether or not the
    store already has it.  After the call the row of that id is in status
    PROCESSING with [processed_rows] 0 and its transaction list is empty, so
    a call on an existing id replaces the row and discards its transactions;
    the rows and transactions of every other id and the processed-event set
    are as before. *)
Theorem CreateUpload_succeeds_and_resets (now : Time) (uploadID : string) (s : MemoryStore) :
  let s' := fst (CreateUpload now uploadID s) in
  snd (CreateUpload now uploadID s) = None
  /\ uploads s' !! uploadID
     = Some (Upload.Build uploadID UploadStatusProcessing 0 0 now None)
  /\ transactions s' !! uploadID = Some []
  /\ (forall other, other <> uploadID ->
        uploads s' !! other = uploads s !! other
        /\ transactions s' !! other = transactions s !! other)
  /\ processedEvents s' = processedEvents s.
Proof.
  simpl. split; [done|]. split; [apply lookup_insert_eq|].
  split; [apply lookup_insert_eq|]. split; [|done].
  intros other Hne. split; by apply lookup_insert_ne.
Qed.

Lemma CreateUpload_succeeds_and_resets_witness :
  uploads (fst (CreateUpload 9 "v" s1_store)) !! "u" = uploads s1_store !! "u"
  /\ transactions (fst (CreateUpload 9 "v" s1_store)) !! "u"
     = transactions s1_store !! "u".
Proof.
  destruct (CreateUpload_succeeds_and_resets 9 "v" s1_store) as (_ & _ & _ & Hother & _).
  apply Hother. vm_compute. congruence.
Defined.

(** ** The ledger store: the processed-event set *)

Lemma apply_op_keeps_unmarked (s : MemoryStore) (o : op) (eventID : string) :
  o <> OpMarkEventProcessed eventID ->
  processedEvents (apply_op s o) !! eventID = processedEvents s !! eventID.
Proof.
  intros Hne. destruct o as [now id|now id st|id|id tx ln|id]; simpl.
  - done.
  - unfold UpdateUploadStatus. by destruct (uploads s !! id).
  - unfold IncrementProcessedRows. by destruct (uploads s !! id).
  - unfold AddTransaction. by destruct (uploads s !! id).
  - apply lookup_insert_ne. congruence.
Qed.

Lemma apply_op_keeps_marked (s : MemoryStore) (o : op) (eventID : string) :
  processedEvents s !! eventID = Some true ->
  processedEvents (apply_op s o) !! eventID = Some true.
Proof.
  intros Hm. destruct o as [now id|now id st|id|id tx ln|id]; simpl.
  - done.
  - unfold UpdateUploadStatus. by destruct (uploads s !! id).
  - unfold IncrementProcessedRows. by destruct (uploads s !! id).
  - unfold AddTransaction. by destruct (uploads s !! id).
  - destruct (decide (id = eventID)) as [->|Hne].
    + apply lookup_insert_eq.
    + by rewrite lookup_insert_ne.
Qed.

(** Every value the processed-event map of a reachable store holds is
    [true]. *)
Lemma run_processed_true (ops : list op) (eventID : string) (b : bool) :
  processedEvents (run ops) !! eventID = Some b -> b = true.
Proof.
  unfold run. revert b.
  induction ops as [|o ops IH] using rev_ind; intros b.
  - simpl. by rewrite lookup_empty.
  - rewrite fold_left_app. simpl.
    assert (Hcases : o = OpMarkEventProcessed eventID
                     \/ o <> OpMarkEventProcessed eventID).
    { destruct o as [| | | |id]; try (right; congruence).
      destruct (decide (id = eventID)) as [->|Hne]; [by left|right; congruence]. }
    destruct Hcases as [->|Hne].
    + simpl. rewrite lookup_insert_eq. congruence.
    + rewrite apply_op_keeps_unmarked by done. apply IH.
Qed.

(** C10: in the in-memory store [IsEventProcessed] and [MarkEventProcessed]
    never return an error; in every store reached from [NewMemoryStore] by
    operations none of which marks the id, [IsEventProcessed] returns false;
    it returns true right after [MarkEventProcessed] of the id and after any
    further operations; and marking an id for which it returns true leaves
    the whole store as it was. *)
Theorem event_set_round_trip (eventID : string) :
  (forall s, snd (IsEventProcessed eventID s) = None
             /\ snd (MarkEventProcessed eventID s) = None)
  /\ (forall ops,
        (forall o, o ∈ ops -> o <> OpMarkEventProcessed eventID) ->
        IsEventProcessed eventID (run ops) = (false, None))
  /\ (forall s ops,
        IsEventProcessed eventID
          (fold_left apply_op ops (fst (MarkEventProcessed eventID s)))
        = (true, None))
  /\ (forall s,
        fst (IsEventProcessed eventID s) = true ->
        fst (MarkEventProcessed eventID s) = s).
Proof.
  split; [done|]. split; [|split].
  - intros ops Hops. unfold IsEventProcessed. f_equal.
    destruct (processedEvents (run ops) !! eventID) as [b|] eqn:Hb; [|done].
    exfalso. revert b Hb. unfold run.
    induction ops as [|o ops IH] using rev_ind; intros b.
    + simpl. by rewrite lookup_empty.
    + rewrite fold_left_app. simpl.
      rewrite apply_op_keeps_unmarked by (apply Hops; set_solver).
      apply IH. intros o' Ho'. apply Hops. set_solver.
  - intros s ops. unfold IsEventProcessed. f_equal.
    assert (Hm : processedEvents
                   (fold_left apply_op ops (fst (MarkEventProcessed eventID s)))
                 !! eventID = Some true).
    { induction ops as [|o ops IH] using rev_ind.
      - simpl. apply lookup_insert_eq.
      - rewrite fold_left_app. simpl. by apply apply_op_keeps_marked. }
    by rewrite Hm.
  - intros s Hp. unfold IsEventProcessed in Hp. simpl in Hp.
    destruct (processedEvents s !! eventID) as [b|] eqn:Hb; simpl in Hp; [|done].
    subst b. destruct s as [u t p]. simpl in *. f_equal. by apply insert_id.
Qed.

Lemma event_set_round_trip_witness :
  IsEventProcessed "u-1" s1_store = (false, None)
  /\ fst (MarkEventProcessed "u-1" (fst (MarkEventProcessed "u-1" s1_store)))
     = fst (MarkEventProcessed "u-1" s1_store).
Proof.
  destruct (event_set_round_trip "u-1") as (_ & Hfresh & _ & Hagain).
  split.
  - apply Hfresh. intros o Ho.
    repeat (apply elem_of_cons in Ho as [->|Ho]; [discriminate|]).
    by apply elem_of_nil in Ho.
  - apply Hagain. reflexivity.
Defined.

(** ** The reconciliation consumer *)

Lemma Consume_processed (s : MemoryStore) (event : Event.t) :
  fst (IsEventProcessed (Event.ID event) s) = true ->
  Consume event s = (s, None).
Proof.
  unfold Consume. simpl. intros Hp. simpl in Hp. by rewrite Hp.
Qed.

Lemma Consume_fresh (s : MemoryStore) (event : Event.t)
    (payload : ReconciliationEvent.t) :
  Event.Payload event = PayloadReconciliation payload ->
  is_Some (uploads s !! ReconciliationEvent.UploadID payload) ->
  fst (IsEventProcessed (Event.ID event) s) = false ->
  Consume event s = (applied_once (Event.ID event) payload s, None).
Proof.
  intros Hpl [u Hu] Hp. unfold Consume, applied_once. simpl in *.
  rewrite Hp, Hpl. unfold AddTransaction. rewrite Hu. simpl.
  unfold IncrementProcessedRows. simpl. by rewrite Hu.
Qed.

Lemma Consume_times_processed (n : nat) (s : MemoryStore) (event : Event.t) :
  fst (IsEventProcessed (Event.ID event) s) = true ->
  Consume_times n event s = (s, replicate n None).
Proof.
  intros Hp. induction n as [|n IH]; simpl; [done|].
  by rewrite Consume_processed, IH.
Qed.

(** C2: an event whose id is in the processed-event set is consumed with
    success and without any change to the store; so [N >= 1] successive
    calls of [Consume] on one event that is not yet processed, carries a
    reconciliation payload and names a stored upload (so that
    [AddTransaction] and [MarkEventProcessed] succeed) all return success
    and leave the store that one application leaves: one row appended to the
    upload's transactions, [processed_rows] incremented once, the event id
    in the processed-event set, other uploads' transactions untouched. *)
Theorem Consume_idempotent (s : MemoryStore) (event : Event.t) :
  (fst (IsEventProcessed (Event.ID event) s) = true -> Consume event s = (s, None))
  /\ (forall (payload : ReconciliationEvent.t) (u : Upload.t) (N : nat),
        Event.Payload event = PayloadReconciliation payload ->
        uploads s !! ReconciliationEvent.UploadID payload = Some u ->
        fst (IsEventProcessed (Event.ID event) s) = false ->
        (1 <= N)%nat ->
        let uploadID := ReconciliationEvent.UploadID payload in
        let s' := fst (Consume_times N event s) in
        Consume_times N event s
        = (applied_once (Event.ID event) payload s, replicate N None)
        /\ txs_of s' uploadID
           = txs_of s uploadID
             ++ [TransactionWithLine.Build (ReconciliationEvent.Transaction_ payload)
                   (ReconciliationEvent.LineNumber payload)]
        /\ Upload.ProcessedRows <$> uploads s' !! uploadID
           = Some (Int64.add (Upload.ProcessedRows u) 1)
        /\ IsEventProcessed (Event.ID event) s' = (true, None)
        /\ (forall other, other <> uploadID -> txs_of s' other = txs_of s other)).
Proof.
  split; [apply Consume_processed|].
  intros payload u N Hpl Hu Hp HN uploadID s'.
  assert (Hall : Consume_times N event s
                 = (applied_once (Event.ID event) payload s, replicate N None)).
  { destruct N as [|N]; [lia|]. simpl.
    rewrite (Consume_fresh s event payload) by eauto.
    rewrite Consume_times_processed; [done|].
    unfold applied_once, AddTransaction, IncrementProcessedRows.
    rewrite Hu. simpl. rewrite Hu. simpl. by rewrite lookup_insert_eq. }
  split; [exact Hall|]. subst s' uploadID. rewrite Hall. simpl.
  unfold applied_once, AddTransaction, IncrementProcessedRows.
  rewrite Hu. simpl. rewrite Hu. simpl.
  unfold txs_of. simpl. rewrite !lookup_insert_eq. simpl.
  split; [done|]. split; [done|]. split.
  - unfold IsEventProcessed. simpl. by rewrite lookup_insert_eq.
  - intros other Hne. by rewrite lookup_insert_ne.
Qed.

Lemma Consume_idempotent_witness :
  Consume_times 3 (s5_event 10) s1_store
  = (applied_once "u-1"
       (ReconciliationEvent.Build "u"
          (mk_tx TransactionTypeCredit 10 TransactionStatusSuccess) 1) s1_store,
     [None; None; None])
  /\ Consume (s5_event 20) (fst (Consume (s5_event 10) s1_store))
     = (fst (Consume (s5_event 10) s1_store), None).
Proof.
  split.
  - destruct (Consume_idempotent s1_store (s5_event 10)) as [_ Hn].
    destruct (uploads s1_store !! "u") as [u|] eqn:Hu; [|by vm_compute in Hu].
    apply (Hn _ u 3%nat); [reflexivity | exact Hu | reflexivity | lia].
  - apply (Consume_idempotent (fst (Consume (s5_event 10) s1_store)) (s5_event 20)).
    vm_compute. reflexivity.
Defined.

(** ** The retry runner *)

Section RetryLoop.
Context {St : Type}.
Variable ctx_done : Z -> option error.
Variable fn : St -> St * option error.
Variable cfg : retry.Config.

Lemma state_after_S (s : St) (k : nat) :
  state_after fn s (S k) = state_after fn (fst (fn s)) k.
Proof. unfold state_after. by rewrite Nat.iter_succ_r. Qed.

Lemma backoffs_S (first : Z) (n : nat) :
  backoffs cfg first (S n)
  = retry.calculateBackoff first (retry.BaseDelay cfg) (retry.MaxDelay cfg)
    :: backoffs cfg (first + 1) n.
Proof.
  unfold backoffs. simpl. rewrite Z.add_0_r. f_equal.
  rewrite <- seq_shift, map_map. apply map_ext. intros i. f_equal. lia.
Qed.

(** The loop does not read [lastErr] once it has an iteration to run. *)
Lemma loop_lastErr (remaining : nat) attempt lastErr lastErr' s :
  (0 < remaining)%nat ->
  retry.loop ctx_done fn cfg remaining attempt lastErr s
  = retry.loop ctx_done fn cfg remaining attempt lastErr' s.
Proof. destruct remaining; [lia|done]. Qed.

(** [k] failed attempts, each followed by a sleep that runs to the timer,
    take the loop from attempt [attempt] to attempt [attempt + k], having
    slept [backoffs cfg attempt k]. *)
Lemma loop_failed_prefix (k : nat) : forall (remaining : nat) attempt lastErr s,
  attempt + Z.of_nat remaining = retry.MaxAttempts cfg ->
  (k < remaining)%nat ->
  (forall i : nat, (i < k)%nat ->
     outcome fn s i <> None /\ ctx_done (attempt + Z.of_nat i) = None) ->
  retry.loop ctx_done fn cfg remaining attempt lastErr s
  = let '(s', r, delays) :=
      retry.loop ctx_done fn cfg (remaining - k) (attempt + Z.of_nat k) lastErr
        (state_after fn s k) in
    (s', r, backoffs cfg attempt k ++ delays).
Proof.
  induction k as [|k IH]; intros remaining attempt lastErr s Hinv Hk Hfail.
  - simpl. rewrite Z.add_0_r, Nat.sub_0_r.
    by destruct (retry.loop _ _ _ _ _ _ _) as [[? ?] ?].
  - destruct remaining as [|remaining]; [lia|].
    destruct (Hfail 0%nat ltac:(lia)) as [Hout Hctx].
    unfold outcome, state_after in Hout. simpl in Hout.
    rewrite Z.add_0_r in Hctx.
    cbn [retry.loop]. destruct (fn s) as [s1 err] eqn:Hfn. simpl in Hout.
    destruct err as [e|]; [|done].
    rewrite decide_False by lia. rewrite Hctx.
    rewrite (IH remaining (attempt + 1) (Some e) s1); [|lia|lia|].
    + rewrite (loop_lastErr _ _ (Some e) lastErr) by lia.
      rewrite state_after_S, Hfn, backoffs_S. simpl.
      replace (attempt + 1 + Z.of_nat k) with (attempt + Z.of_nat (S k)) by lia.
      by destruct (retry.loop _ _ _ _ _ _ _) as [[? ?] ?].
    + intros i Hi. destruct (Hfail (S i) ltac:(lia)) as [Ho Hc].
      unfold outcome in *. rewrite state_after_S, Hfn in Ho. simpl in Ho.
      split; [done|]. rewrite <- Hc. f_equal. lia.
Qed.
End RetryLoop.

Lemma backoffs_snoc (cfg : retry.Config) (n : nat) :
  backoffs cfg 0 (S n)
  = backoffs cfg 0 n
    ++ [retry.calculateBackoff (Z.of_nat n) (retry.BaseDelay cfg) (retry.MaxDelay cfg)].
Proof. unfold backoffs. by rewrite seq_S, map_app. Qed.

Lemma state_after_succ {St : Type} (fn : St -> St * option error) (s : St) (k : nat) :
  state_after fn s (S k) = fst (fn (state_after fn s k)).
Proof. done. Qed.

(** X14: for an attempt number from 0 to 62 and a product
    [baseDelay * 2^attempt] within [int64], the backoff is
    [min(baseDelay * 2^attempt, maxDelay)]: the base delay doubled once per
    attempt, capped at [maxDelay]. *)
Lemma calculateBackoff_min (attempt : Z) (baseDelay maxDelay : retry.Duration) :
  0 <= attempt <= 62 ->
  Int64.in_range (baseDelay * 2 ^ attempt) ->
  retry.calculateBackoff attempt baseDelay maxDelay
  = Z.min (baseDelay * 2 ^ attempt) maxDelay.
Proof.
  intros Ha Hr. unfold retry.calculateBackoff, Int64.to_uint, Int64.shl, Int64.mul.
  rewrite (Z.mod_small attempt) by lia.
  replace (attempt <? 64) with true by (symmetry; apply Z.ltb_lt; lia).
  rewrite Z.mul_1_l.
  assert (H2 : Int64.in_range (2 ^ attempt)).
  { unfold Int64.in_range, Int64.min_int, Int64.max_int.
    pose proof (Z.pow_le_mono_r 2 attempt 62 ltac:(lia) ltac:(lia)).
    pose proof (Z.pow_pos_nonneg 2 attempt ltac:(lia) ltac:(lia)).
    change (2 ^ 62) with 4611686018427387904 in *.
    change (2 ^ 63) with 9223372036854775808. lia. }
  rewrite (wrap_small (2 ^ attempt)) by done. rewrite wrap_small by done.
  case_decide; lia.
Qed.

(** The outcomes of [Do], over every operation, context and option list. *)
Section RetryDo.
Context {St : Type}.
Variable ctx_done : Z -> option error.
Variable fn : St -> St * option error.
Variable opts : list retry.Option.
Variable s : St.
Let cfg := retry.applyOptions opts.

Lemma Do_prefix (k : nat) :
  Z.of_nat k < retry.MaxAttempts cfg ->
  fails_through ctx_done fn s k ->
  retry.Do ctx_done fn opts s
  = let '(s', r, delays) :=
      retry.loop ctx_done fn cfg (Z.to_nat (retry.MaxAttempts cfg) - k)
        (Z.of_nat k) None (state_after fn s k) in
    (s', r, backoffs cfg 0 k ++ delays).
Proof.
  intros Hk Hfail. unfold retry.Do. fold cfg.
  rewrite (loop_failed_prefix ctx_done fn cfg k); [done|lia|lia|].
  intros i Hi. rewrite Z.add_0_l. by apply Hfail.
Qed.

(** The first attempt that succeeds ends [Do] with [nil]. *)
Lemma Do_first_success (k : nat) :
  Z.of_nat k < retry.MaxAttempts cfg ->
  fails_through ctx_done fn s k ->
  outcome fn s k = None ->
  retry.Do ctx_done fn opts s = (state_after fn s (S k), None, backoffs cfg 0 k).
Proof.
  intros Hk Hfail Hok. rewrite (Do_prefix k) by done.
  destruct (Z.to_nat (retry.MaxAttempts cfg) - k)%nat as [|r] eqn:Hr; [lia|].
  cbn [retry.loop]. rewrite state_after_succ. unfold outcome in Hok.
  destruct (fn (state_after fn s k)) as [s' err]. simpl in *. subst err.
  by rewrite app_nil_r.
Qed.

(** A failed attempt that is not the last is followed by a sleep of
    [calculateBackoff]; the context firing during it ends [Do] with the
    context's error. *)
Lemma Do_cancelled (k : nat) (ctxErr : error) :
  Z.of_nat k < retry.MaxAttempts cfg - 1 ->
  fails_through ctx_done fn s k ->
  outcome fn s k <> None ->
  ctx_done (Z.of_nat k) = Some ctxErr ->
  retry.Do ctx_done fn opts s
  = (state_after fn s (S k), Some ctxErr, backoffs cfg 0 (S k)).
Proof.
  intros Hk Hfail Herr Hctx. rewrite (Do_prefix k) by (done || lia).
  destruct (Z.to_nat (retry.MaxAttempts cfg) - k)%nat as [|r] eqn:Hr; [lia|].
  cbn [retry.loop]. rewrite state_after_succ. unfold outcome in Herr.
  destruct (fn (state_after fn s k)) as [s' err]. simpl in *.
  destruct err as [e|]; [|done].
  rewrite decide_False by lia. rewrite Hctx. by rewrite backoffs_snoc.
Qed.

(** When the last attempt fails too, [Do] ends with the wrapped error
    carrying that attempt's error. *)
Lemma Do_exhausted (k : nat) (e : error) :
  Z.of_nat k = retry.MaxAttempts cfg - 1 ->
  fails_through ctx_done fn s k ->
  outcome fn s k = Some e ->
  retry.Do ctx_done fn opts s
  = (state_after fn s (S k),
     Some (ErrMaxRetriesExceeded (retry.MaxAttempts cfg) e),
     backoffs cfg 0 k).
Proof.
  intros Hk Hfail Herr. rewrite (Do_prefix k) by (done || lia).
  destruct (Z.to_nat (retry.MaxAttempts cfg) - k)%nat as [|r] eqn:Hr; [lia|].
  cbn [retry.loop]. rewrite state_after_succ. unfold outcome in Herr.
  destruct (fn (state_after fn s k)) as [s' err]. simpl in *. subst err.
  rewrite decide_True by lia. by rewrite app_nil_r.
Qed.

(** With no attempt to make, [Do] returns [nil] without calling the
    operation. *)
Lemma Do_no_attempts :
  retry.MaxAttempts cfg <= 0 ->
  retry.Do ctx_done fn opts s = (s, None, []).
Proof.
  intros Hle. unfold retry.Do. fold cfg.
  by replace (Z.to_nat (retry.MaxAttempts cfg)) with 0%nat by lia.
Qed.
End RetryDo.

(** The defaults are 5 attempts, 1s and 30s, and without overflow the sleeps
    double from 1s. *)
Lemma default_backoffs :
  retry.applyOptions [] = retry.mkConfig 5 1000000000 30000000000
  /\ backoffs (retry.applyOptions [retry.WithMaxAttempts 5]) 0 4
     = [1000000000; 2000000000; 4000000000; 8000000000].
Proof. by vm_compute. Qed.

(** C6 fails on the code where [baseDelay * 2^attempt] leaves [int64]: with
    the default delays and 36 attempts allowed, an operation that keeps
    failing is retried after attempt 34 with a negative delay, that is at
    once, where [min(baseDelay * 2^34, maxDelay)] is 30s. *)
Theorem Do_backoff_overflow :
  let '(_, _, delays) :=
    retry.Do never_done always_failing [retry.WithMaxAttempts 36] tt in
  delays !! 34%nat = Some (-1266874889709551616)
  /\ retry.calculateBackoff 34 (1 * retry.Second) (30 * retry.Second)
     = -1266874889709551616
  /\ Z.min (1 * retry.Second * 2 ^ 34) (30 * retry.Second) = 30 * retry.Second.
Proof. by vm_compute. Qed.

(** A worker's [processEvent] on the in-memory store: an event already
    processed, and an event applied for the first time, both end on the first
    attempt, with no sleep. *)
Lemma processEvent_first_attempt (ctx_done : Z -> option error) (s : MemoryStore)
    (event : Event.t) :
  (fst (IsEventProcessed (Event.ID event) s) = true ->
   processEvent ctx_done event s = (s, None, []))
  /\ (forall payload,
        Event.Payload event = PayloadReconciliation payload ->
        is_Some (uploads s !! ReconciliationEvent.UploadID payload) ->
        fst (IsEventProcessed (Event.ID event) s) = false ->
        processEvent ctx_done event s
        = (applied_once (Event.ID event) payload s, None, [])).
Proof.
  split.
  - intros Hp. unfold processEvent.
    rewrite (Do_first_success ctx_done (Consume event) _ s 0%nat).
    + rewrite state_after_succ. simpl. by rewrite Consume_processed.
    + by vm_compute.
    + intros i Hi. lia.
    + unfold outcome. simpl. by rewrite Consume_processed.
  - intros payload Hpl Hu Hp. unfold processEvent.
    rewrite (Do_first_success ctx_done (Consume event) _ s 0%nat).
    + rewrite state_after_succ. simpl.
      by rewrite (Consume_fresh s event payload).
    + by vm_compute.
    + intros i Hi. lia.
    + unfold outcome. simpl. by rewrite (Consume_fresh s event payload).
Qed.

(** ** The event bus: publishing *)

(** C7, as the specification states it, fails: on a queue with room and a
    cancelled context the [select] may take [ctx.Done()], and [Publish] then
    returns the cancellation error without enqueuing; and on a full queue
    with a cancelled context it reports the cancellation error for the event
    it does not deliver. *)
Lemma Publish_cancelled_counterexample :
  let event := s5_event 10 in
  let eb := subscribed_bus 1 in
  let full := fst (Publish (mkEnv false false) None event eb) in
  (exists ch, channels eb !! Event.Type_ event = Some ch /\ has_room ch)
  /\ Publish (mkEnv false true) (Some Canceled) event eb = (eb, Some Canceled)
  /\ (exists ch, channels full !! Event.Type_ event = Some ch /\ ~ has_room ch)
  /\ Publish (mkEnv false false) (Some Canceled) event full = (full, Some Canceled).
Proof.
  cbv zeta. split; [|split; [|split]].
  - eexists. split; [by vm_compute|]. by vm_compute.
  - by vm_compute.
  - eexists. split; [by vm_compute|]. by vm_compute.
  - by vm_compute.
Qed.

Lemma has_room_send_ready (ch : chan) (env : select_env) :
  has_room ch -> send_ready ch env = true.
Proof.
  unfold has_room, send_ready. intros Hr. by rewrite bool_decide_eq_true_2.
Qed.

Lemma send_ready_iff (ch : chan) (env : select_env) :
  send_ready ch env = true
  <-> has_room ch \/ (receiver_parked env = true /\ buf ch = []).
Proof.
  unfold send_ready, has_room.
  rewrite orb_true_iff, andb_true_iff, !bool_decide_eq_true.
  split; (intros [Hroom|[Hparked Hempty]]; [by left|right; split; [done|]]).
  - by apply length_zero_iff_nil.
  - by rewrite Hempty.
Qed.

(** C7, amended: [Publish] is a single non-blocking [select].  With no queue
    for the event's type it is a no-op success.  Otherwise the send can
    proceed exactly when the queue has room, or when it is empty and a worker
    is parked in a receive on it (for a queue of capacity 0, which never has
    room, the only way).  With a live context [Publish] sends the event and
    succeeds when the send can proceed, and drops the event and still
    succeeds when it cannot; with a cancelled context it returns the
    cancellation error, nothing sent, when the send cannot proceed, and when
    the send can proceed it does one of the two, send and succeed or return
    the cancellation error.  It reports no error other than the error of a
    cancelled context, and whenever it reports one the bus is unchanged. *)
Theorem Publish_outcomes (env : select_env) (ctx : option error) (event : Event.t)
    (eb : eventBus) :
  (channels eb !! Event.Type_ event = None ->
   Publish env ctx event eb = (eb, None))
  /\ (forall ch, channels eb !! Event.Type_ event = Some ch ->
        (send_ready ch env = true
         <-> has_room ch \/ (receiver_parked env = true /\ buf ch = []))
        /\ (ctx = None -> send_ready ch env = true ->
            Publish env ctx event eb = (send (Event.Type_ event) ch event eb, None))
        /\ (ctx = None -> send_ready ch env = false ->
            Publish env ctx event eb = (eb, None))
        /\ (forall ctxErr, ctx = Some ctxErr -> send_ready ch env = false ->
              Publish env ctx event eb = (eb, Some ctxErr))
        /\ (forall ctxErr, ctx = Some ctxErr -> send_ready ch env = true ->
              Publish env ctx event eb = (send (Event.Type_ event) ch event eb, None)
              \/ Publish env ctx event eb = (eb, Some ctxErr))
        /\ queue_of (send (Event.Type_ event) ch event eb) (Event.Type_ event)
           = queue_of eb (Event.Type_ event) ++ [event])
  /\ (forall e, snd (Publish env ctx event eb) = Some e ->
        ctx = Some e /\ fst (Publish env ctx event eb) = eb).
Proof.
  split; [|split].
  - intros Hno. unfold Publish. by rewrite Hno.
  - intros ch Hch. split; [apply send_ready_iff|].
    unfold Publish. rewrite Hch.
    split; [by intros -> ->|]. split; [by intros -> ->|].
    split; [by intros e -> ->|]. split.
    + intros e -> ->. destruct (done_first env); [by right|by left].
    + unfold queue_of, send. simpl. by rewrite lookup_insert_eq, Hch.
  - intros e. unfold Publish.
    destruct (channels eb !! Event.Type_ event) as [ch|]; [|done].
    destruct (send_ready ch env), ctx as [ce|]; try done;
      try destruct (done_first env); try done; simpl; by intros [= ->].
Qed.

Lemma Publish_outcomes_witness :
  Publish (mkEnv false false) None (s5_event 10) (New 1) = (New 1, None)
  /\ queue_of (fst (Publish (mkEnv false false) None (s5_event 10) (subscribed_bus 1)))
       EventTypeReconciliation
     = [s5_event 10].
Proof.
  split.
  - apply (Publish_outcomes (mkEnv false false) None (s5_event 10) (New 1)).
    reflexivity.
  - destruct (Publish_outcomes (mkEnv false false) None (s5_event 10) (subscribed_bus 1))
      as (_ & Hch & _).
    destruct (Hch (mkChan [] 1) eq_refl) as (_ & Hsend & _ & _ & _ & Hq).
    rewrite Hsend by reflexivity. exact Hq.
Defined.

(** ** The CSV processor: parsing a record *)

Lemma parse_digits_nonneg (s : list ascii) : forall n v,
  0 <= n -> gostd.parse_digits s n = (v, None) -> 0 <= v.
Proof.
  induction s as [|c s IH]; intros n v Hn; simpl.
  - by intros [= <-].
  - case_bool_decide as Hd; [|done].
    case_bool_decide; [done|]. apply IH. lia.
Qed.

Lemma ParseInt_in_range (s : string) (v : Z) :
  gostd.ParseInt s = (v, None) -> Int64.in_range v.
Proof.
  unfold gostd.ParseInt.
  destruct (String.list_ascii_of_string s) as [|c s']; [done|].
  set (digits := if _ : bool then _ else _).
  destruct (gostd.ParseUint digits) as [un err] eqn:Hu.
  destruct err as [e|].
  { destruct e; try done. by destruct (bool_decide (c = "-"%char)). }
  assert (Hun : 0 <= un).
  { unfold gostd.ParseUint in Hu. destruct digits; [done|].
    by apply (parse_digits_nonneg _ 0 un ltac:(lia)) in Hu. }
  unfold Int64.in_range, Int64.min_int, Int64.max_int.
  destruct (bool_decide (c = "-"%char)); simpl.
  - case_bool_decide; [done|]. intros [= <-]. lia.
  - case_bool_decide; [done|]. intros [= <-]. lia.
Qed.

(** C9, as the specification states it, fails: a well-formed record whose
    amount field is [-250000] is accepted, and the transaction it yields has
    that negative amount. *)
Lemma parseTransaction_negative_counterexample :
  parseTransaction negative_record 1
  = (Transaction.Build 1674507883 "JOHN DOE" "DEBIT" (-250000) "SUCCESS" "restaurant",
     None)
  /\ gostd.ParseInt (gostd.TrimSpace "-250000") = (-250000, None).
Proof. by vm_compute. Qed.

(** C9, amended: every transaction produced by per-record parsing carries as
    amount the [int64] its trimmed amount field parses to, whatever its sign;
    and a six-field record whose timestamp and amount fields parse and whose
    type and status are among the accepted ones is never rejected, negative
    amount or not.  (So [amount >= 0] holds for exactly the records whose
    amount field is not negative.) *)
Theorem parseTransaction_amount `{!gostd.CaseTable} (record : list string)
    (lineNumber : Z) :
  (forall tx, parseTransaction record lineNumber = (tx, None) ->
     exists r0 r1 r2 r3 r4 r5,
       record = [r0; r1; r2; r3; r4; r5]
       /\ gostd.ParseInt (gostd.TrimSpace r3) = (Transaction.Amount tx, None)
       /\ Int64.in_range (Transaction.Amount tx))
  /\ (forall r0 r1 r2 r3 r4 r5 timestamp amount,
        record = [r0; r1; r2; r3; r4; r5] ->
        gostd.ParseInt (gostd.TrimSpace r0) = (timestamp, None) ->
        gostd.ParseInt (gostd.TrimSpace r3) = (amount, None) ->
        gostd.TrimSpace (gostd.ToUpper r2) = TransactionTypeCredit
        \/ gostd.TrimSpace (gostd.ToUpper r2) = TransactionTypeDebit ->
        gostd.TrimSpace (gostd.ToUpper r4) = TransactionStatusSuccess
        \/ gostd.TrimSpace (gostd.ToUpper r4) = TransactionStatusFailed
        \/ gostd.TrimSpace (gostd.ToUpper r4) = TransactionStatusPending ->
        parseTransaction record lineNumber
        = (Transaction.Build timestamp (gostd.TrimSpace r1)
             (gostd.TrimSpace (gostd.ToUpper r2)) amount
             (gostd.TrimSpace (gostd.ToUpper r4)) (gostd.TrimSpace r5),
           None)).
Proof.
  split.
  - intros tx Hparse.
    destruct record as [|r0 [|r1 [|r2 [|r3 [|r4 [|r5 [|r6 rest]]]]]]]; try done.
    exists r0, r1, r2, r3, r4, r5. split; [done|].
    unfold parseTransaction in Hparse.
    destruct (gostd.ParseInt (gostd.TrimSpace r0)) as [ts [e|]]; [done|].
    destruct (gostd.ParseInt (gostd.TrimSpace r3)) as [amt [e|]] eqn:Hamt; [done|].
    destruct (_ && _); [done|]. destruct (_ && _); [done|].
    injection Hparse as <-. simpl. split; [done|].
    by apply (ParseInt_in_range (gostd.TrimSpace r3)).
  - intros r0 r1 r2 r3 r4 r5 ts amt -> Hts Hamt Htype Hstatus.
    unfold parseTransaction. rewrite Hts, Hamt.
    assert (Ht : bool_decide (gostd.TrimSpace (gostd.ToUpper r2) ≠ TransactionTypeCredit)
                 && bool_decide (gostd.TrimSpace (gostd.ToUpper r2) ≠ TransactionTypeDebit)
                 = false).
    { destruct Htype as [-> | ->]; by vm_compute. }
    assert (Hs : bool_decide (gostd.TrimSpace (gostd.ToUpper r4) ≠ TransactionStatusSuccess)
                 && bool_decide (gostd.TrimSpace (gostd.ToUpper r4) ≠ TransactionStatusFailed)
                 && bool_decide (gostd.TrimSpace (gostd.ToUpper r4) ≠ TransactionStatusPending)
                 = false).
    { destruct Hstatus as [-> | [-> | ->]]; by vm_compute. }
    by rewrite Ht, Hs.
Qed.

Lemma parseTransaction_amount_witness :
  parseTransaction negative_record 1
  = (Transaction.Build 1674507883 "JOHN DOE" "DEBIT" (-250000) "SUCCESS" "restaurant",
     None).
Proof.
  destruct (parseTransaction_amount negative_record 1) as [_ Haccept].
  apply (Haccept "1674507883" "JOHN DOE" "DEBIT" "-250000" "SUCCESS" "restaurant"
           1674507883 (-250000));
    [reflexivity | by vm_compute | by vm_compute
     | right; by vm_compute | left; by vm_compute].
Defined.

(** ** The CSV processor: the read loop and the final status *)

Section ProcessStreamFacts.
Context {B E R : Type} `{EventBus B E} `{Repository R} `{!gostd.CaseTable}.
Variable now : nat -> Time.
Variable nowAtEnd : Time.
Variable env : nat -> E.
Variable ctx : nat -> option error.
Variable uploadID : string.

(** Fuel beyond what reaches [io.EOF] changes nothing. *)
Lemma read_loop_more_fuel (reader : Reader) (fuel : nat) :
  forall pos c bus r,
    read_loop now env ctx uploadID reader fuel pos c bus = Some r ->
    read_loop now env ctx uploadID reader (S fuel) pos c bus = Some r.
Proof.
  induction fuel as [|fuel IH]; intros pos c bus r; [done|].
  intros Hr. cbn [read_loop] in *.
  destruct (reader pos) as [record|e|]; [|by apply IH|done].
  destruct (parseTransaction _ _) as [tx [e|]]; [by apply IH|].
  destruct (bus_Publish _ _ _ _) as [bus' [e|]]; by apply IH.
Qed.

Lemma read_loop_fuel_le (reader : Reader) (fuel fuel' : nat) pos c bus r :
  (fuel <= fuel')%nat ->
  read_loop now env ctx uploadID reader fuel pos c bus = Some r ->
  read_loop now env ctx uploadID reader fuel' pos c bus = Some r.
Proof.
  induction 1 as [|fuel' Hle IH]; [done|].
  intros Hr. by apply read_loop_more_fuel, IH.
Qed.

(** A reader that reports [io.EOF] at its call number [pos + n] ends the
    loop entered at [pos] within [n + 1] iterations. *)
Lemma read_loop_reaches_eof (reader : Reader) (n : nat) :
  forall pos c bus,
    reader (pos + n)%nat = ReadEOF ->
    is_Some (read_loop now env ctx uploadID reader (S n) pos c bus).
Proof.
  induction n as [|n IH]; intros pos c bus Heof.
  - rewrite Nat.add_0_r in Heof. cbn [read_loop]. rewrite Heof. eauto.
  - assert (Heof' : reader (S pos + n)%nat = ReadEOF)
      by (rewrite <- Heof; f_equal; lia).
    remember (S n) as m. cbn [read_loop]. subst m.
    destruct (reader pos) as [record|e|]; [|by apply IH|eauto].
    destruct (parseTransaction _ _) as [tx [e|]]; [by apply IH|].
    destruct (bus_Publish _ _ _ _) as [bus' [e|]]; by apply IH.
Qed.

(** On a reader that reaches [io.EOF], [ProcessStream] returns [nil], and
    the status it writes is FAILED exactly when, after the loop,
    [errorCount > 0] and [successCount = 0], and COMPLETED otherwise. *)
Lemma ProcessStream_finalizes (reader : Reader) (n fuel : nat) (bus : B) (repo : R) :
  reader n = ReadEOF ->
  (n < fuel)%nat ->
  exists bus' c,
    read_loop now env ctx uploadID reader (S n) 0%nat (mkCounters 0 0 0) bus
    = Some (c, bus')
    /\ ProcessStream now nowAtEnd env ctx uploadID reader fuel bus repo
       = Some (bus',
               fst (repo_UpdateUploadStatus nowAtEnd uploadID
                      (final_status c) repo),
               c, None)
    /\ (final_status c = UploadStatusFailed
        <-> errorCount c > 0 /\ successCount c = 0)
    /\ (final_status c = UploadStatusCompleted
        <-> ~ (errorCount c > 0 /\ successCount c = 0)).
Proof.
  intros Heof Hfuel.
  destruct (read_loop_reaches_eof reader n 0%nat (mkCounters 0 0 0) bus Heof)
    as [[c bus'] Hloop].
  exists bus', c. split; [done|].
  unfold ProcessStream.
  rewrite (read_loop_fuel_le reader (S n) fuel _ _ _ _ ltac:(lia) Hloop).
  unfold final_status.
  destruct (bool_decide (errorCount c > 0)) eqn:He;
    destruct (bool_decide (successCount c = 0)) eqn:Hs; simpl;
    try apply bool_decide_eq_true_1 in He; try apply bool_decide_eq_false_1 in He;
    try apply bool_decide_eq_true_1 in Hs; try apply bool_decide_eq_false_1 in Hs.
  all: split; [by destruct (repo_UpdateUploadStatus _ _ _ _)|].
  all: unfold UploadStatusFailed, UploadStatusCompleted; split; split;
    try done; try tauto; try (intros [? ?]; done).
Qed.

(** On a reader that never reports [io.EOF] the loop does not end, whatever
    the fuel. *)
Lemma read_loop_no_eof (reader : Reader) (fuel : nat) :
  (forall i, reader i <> ReadEOF) ->
  forall pos c bus, read_loop now env ctx uploadID reader fuel pos c bus = None.
Proof.
  intros Hne. induction fuel as [|fuel IH]; intros pos c bus; [done|].
  cbn [read_loop]. pose proof (Hne pos) as Hpos.
  destruct (reader pos) as [record|e|]; [|by apply IH|done].
  destruct (parseTransaction _ _) as [tx [e|]]; [by apply IH|].
  destruct (bus_Publish _ _ _ _) as [bus' [e|]]; by apply IH.
Qed.
End ProcessStreamFacts.

(** Scenario S6 and the empty stream, on the in-process bus and the in-memory
    store: two rows published and one read error finalize COMPLETED with
    line numbers 1 and 2; no record at all finalizes COMPLETED. *)
Lemma ProcessStream_scenarios :
  let fresh := run [OpCreateUpload 0 "u"] in
  (exists bus' repo',
     ProcessStream_mem quiet (ticking 7) 20 live "u" s6_reader 4
       (subscribed_bus 1000) fresh
     = Some (bus', repo', mkCounters 2 2 1, None)
     /\ status_of repo' "u" = Some UploadStatusCompleted
     /\ Event.ID <$> queue_of bus' EventTypeReconciliation = ["u-1"; "u-2"])
  /\ (exists bus' repo',
        ProcessStream_mem quiet (ticking 7) 20 live "u" (reader_of []) 1
          (subscribed_bus 1000) fresh
        = Some (bus', repo', mkCounters 0 0 0, None)
        /\ status_of repo' "u" = Some UploadStatusCompleted)
  /\ (exists bus' repo',
        ProcessStream_mem quiet (ticking 7) 20 live "u"
          (reader_of [["not"; "a"; "row"]]) 2 (subscribed_bus 1000) fresh
        = Some (bus', repo', mkCounters 1 0 1, None)
        /\ status_of repo' "u" = Some UploadStatusFailed).
Proof.
  cbv zeta. split; [|split]; do 2 eexists; (split; [by vm_compute|]); by vm_compute.
Qed.

(** C8 fails on the code for a reader that never reports [io.EOF]: when every
    [Read] fails with an error other than [io.EOF], each iteration counts the
    error and continues, so no number of iterations ends the loop, and
    [ProcessStream] neither returns nor writes a final status. *)
Theorem ProcessStream_spins_on_failing_reader `{!gostd.CaseTable}
    (env : nat -> select_env) (now : nat -> Time) (nowAtEnd : Time)
    (ctx : nat -> option error) (uploadID : string) (fuel : nat) (bus : eventBus)
    (repo : MemoryStore) :
  ProcessStream_mem env now nowAtEnd ctx uploadID failing_reader fuel bus repo = None.
Proof.
  unfold ProcessStream_mem, ProcessStream.
  by rewrite read_loop_no_eof.
Qed.

(** * Further properties of the code

    Properties of the functions around those above: the rest of the store,
    the retry runner, the consumer under retry, the bus, the CSV processor
    and the HTTP handlers. *)

Import props.

(** ** The store: what every reachable state satisfies *)

Lemma apply_op_store_ok (s : MemoryStore) (o : op) :
  store_ok s -> store_ok (apply_op s o).
Proof.
  intros (Hdom & Hup & Hev).
  destruct o as [now id|now id st|id|id tx ln|id]; simpl.
  - split; [|split]; simpl.
    + rewrite !dom_insert_L. by rewrite Hdom.
    + intros id' u. destruct (decide (id = id')) as [->|Hne].
      * rewrite lookup_insert_eq. intros [= <-]. simpl.
        split; [done|split; [done|]]. by vm_compute.
      * rewrite lookup_insert_ne by done. apply Hup.
    + done.
  - unfold UpdateUploadStatus. destruct (uploads s !! id) as [u|] eqn:Hu; [|done].
    split; [|split]; simpl.
    + by rewrite dom_insert_lookup_L by eauto.
    + intros id' u'. destruct (decide (id = id')) as [->|Hne].
      * rewrite lookup_insert_eq. intros [= <-]. simpl. by apply Hup.
      * rewrite lookup_insert_ne by done. apply Hup.
    + done.
  - unfold IncrementProcessedRows. destruct (uploads s !! id) as [u|] eqn:Hu; [|done].
    split; [|split]; simpl.
    + by rewrite dom_insert_lookup_L by eauto.
    + intros id' u'. destruct (decide (id = id')) as [->|Hne].
      * rewrite lookup_insert_eq. intros [= <-]. simpl.
        destruct (Hup _ _ Hu) as (? & ? & ?).
        split; [done|split; [done|]]. apply wrap_in_range.
      * rewrite lookup_insert_ne by done. apply Hup.
    + done.
  - unfold AddTransaction. destruct (uploads s !! id) as [u|] eqn:Hu; [|done].
    split; [|split]; simpl; [|done|done].
    rewrite dom_insert_lookup_L; [done|].
    apply elem_of_dom. rewrite <- Hdom. apply elem_of_dom. eauto.
  - split; [done|split; [done|]]. simpl. intros id' b.
    destruct (decide (id = id')) as [->|Hne].
    + rewrite lookup_insert_eq. congruence.
    + rewrite lookup_insert_ne by done. apply Hev.
Qed.

(** X1: in every store reached from [NewMemoryStore] by the store's
    operations, an id has an upload row exactly when it has a transaction
    list; each row carries its own key as [ID], a [TotalRows] of 0 (no
    operation ever writes it) and a [ProcessedRows] within [int]; and every
    entry of the processed-event map is [true]. *)
Theorem reachable_store_invariant (ops : list op) :
  dom (uploads (run ops)) = dom (transactions (run ops))
  /\ (forall id, is_Some (uploads (run ops) !! id)
                 <-> is_Some (transactions (run ops) !! id))
  /\ (forall id u, uploads (run ops) !! id = Some u ->
        Upload.ID u = id /\ Upload.TotalRows u = 0
        /\ Int64.in_range (Upload.ProcessedRows u))
  /\ (forall id b, processedEvents (run ops) !! id = Some b -> b = true).
Proof.
  assert (Hok : store_ok (run ops)).
  { unfold run. induction ops as [|o ops IH] using rev_ind.
    - split; [|split]; simpl.
      + by rewrite !dom_empty_L.
      + intros id u. by rewrite lookup_empty.
      + intros id b. by rewrite lookup_empty.
    - rewrite fold_left_app. simpl. by apply apply_op_store_ok. }
  destruct Hok as (Hdom & Hup & Hev).
  split; [done|]. split; [|by split].
  intros id. by rewrite <- !elem_of_dom, Hdom.
Qed.

(** ** The store: uploads persist and ledgers only grow *)

Lemma apply_op_keeps_upload (s : MemoryStore) (o : op) (uploadID : string)
    (u : Upload.t) :
  uploads s !! uploadID = Some u ->
  exists u',
    uploads (apply_op s o) !! uploadID = Some u'
    /\ (~ creates uploadID o ->
        Upload.ID u' = Upload.ID u
        /\ Upload.CreatedAt u' = Upload.CreatedAt u
        /\ (is_Some (Upload.CompletedAt u) -> is_Some (Upload.CompletedAt u'))
        /\ exists more, txs_of (apply_op s o) uploadID = txs_of s uploadID ++ more).
Proof.
  intros Hu. destruct o as [now id|now id st|id|id tx ln|id]; simpl.
  - destruct (decide (id = uploadID)) as [->|Hne].
    + eexists. rewrite lookup_insert_eq. split; [done|]. intros Hc. by destruct Hc.
    + exists u. rewrite lookup_insert_ne by done. split; [done|]. intros _.
      split; [done|split; [done|split; [done|]]].
      exists []. unfold txs_of. simpl. rewrite lookup_insert_ne by done.
      by rewrite app_nil_r.
  - unfold UpdateUploadStatus. destruct (uploads s !! id) as [v|] eqn:Hv.
    + destruct (decide (id = uploadID)) as [->|Hne]; simpl.
      * eexists. rewrite lookup_insert_eq. split; [done|]. intros _.
        assert (v = u) as -> by congruence. simpl.
        split; [done|split; [done|split]].
        -- intros Hc. case_decide; [eauto|done].
        -- exists []. by rewrite app_nil_r.
      * exists u. rewrite lookup_insert_ne by done. split; [done|]. intros _.
        split; [done|split; [done|split; [done|]]].
        exists []. by rewrite app_nil_r.
    + exists u. split; [done|]. intros _.
      split; [done|split; [done|split; [done|]]].
      exists []. by rewrite app_nil_r.
  - unfold IncrementProcessedRows. destruct (uploads s !! id) as [v|] eqn:Hv.
    + destruct (decide (id = uploadID)) as [->|Hne]; simpl.
      * eexists. rewrite lookup_insert_eq. split; [done|]. intros _.
        assert (v = u) as -> by congruence. simpl.
        split; [done|split; [done|split; [done|]]].
        exists []. by rewrite app_nil_r.
      * exists u. rewrite lookup_insert_ne by done. split; [done|]. intros _.
        split; [done|split; [done|split; [done|]]].
        exists []. by rewrite app_nil_r.
    + exists u. split; [done|]. intros _.
      split; [done|split; [done|split; [done|]]].
      exists []. by rewrite app_nil_r.
  - unfold AddTransaction. destruct (uploads s !! id) as [v|] eqn:Hv.
    + exists u. simpl. split; [done|]. intros _.
      split; [done|split; [done|split; [done|]]].
      destruct (decide (id = uploadID)) as [->|Hne].
      * eexists. unfold txs_of at 1. simpl. by rewrite lookup_insert_eq.
      * exists []. unfold txs_of at 1. simpl. rewrite lookup_insert_ne by done.
        by rewrite app_nil_r.
    + exists u. split; [done|]. intros _.
      split; [done|split; [done|split; [done|]]].
      exists []. by rewrite app_nil_r.
  - exists u. split; [done|]. intros _.
    split; [done|split; [done|split; [done|]]].
    exists []. by rewrite app_nil_r.
Qed.

(** X2: no operation of the store removes an upload; and as long as the
    upload is not created again, its [ID] and [CreatedAt] stay what they
    were, a [CompletedAt] that is set stays set (whatever status is written
    later), and its transaction list only grows at the end. *)
Theorem upload_persists (ops : list op) : forall (s : MemoryStore)
    (uploadID : string) (u : Upload.t),
  uploads s !! uploadID = Some u ->
  exists u',
    uploads (fold_left apply_op ops s) !! uploadID = Some u'
    /\ ((forall o, o ∈ ops -> ~ creates uploadID o) ->
        Upload.ID u' = Upload.ID u
        /\ Upload.CreatedAt u' = Upload.CreatedAt u
        /\ (is_Some (Upload.CompletedAt u) -> is_Some (Upload.CompletedAt u'))
        /\ exists more,
             txs_of (fold_left apply_op ops s) uploadID = txs_of s uploadID ++ more).
Proof.
  induction ops as [|o ops IH]; intros s uploadID u Hu; simpl.
  - exists u. split; [done|]. intros _.
    split; [done|split; [done|split; [done|]]]. exists []. by rewrite app_nil_r.
  - destruct (apply_op_keeps_upload s o uploadID u Hu) as (u1 & Hu1 & Hstep).
    destruct (IH (apply_op s o) uploadID u1 Hu1) as (u' & Hu' & Hrest).
    exists u'. split; [done|]. intros Hnc.
    destruct (Hstep ltac:(apply Hnc; left)) as (Hid & Hcr & Hco & more1 & Hm1).
    destruct (Hrest ltac:(intros o' Ho'; apply Hnc; by right))
      as (Hid' & Hcr' & Hco' & more2 & Hm2).
    split; [congruence|split; [congruence|split; [tauto|]]].
    exists (more1 ++ more2). by rewrite Hm2, Hm1, app_assoc.
Qed.

Lemma upload_persists_witness :
  exists u',
    uploads (fold_left apply_op
               [OpUpdateUploadStatus 5 "u" UploadStatusCompleted;
                OpUpdateUploadStatus 6 "u" UploadStatusProcessing]
               s1_store) !! "u" = Some u'
    /\ is_Some (Upload.CompletedAt u').
Proof.
  destruct (upload_persists
              [OpUpdateUploadStatus 5 "u" UploadStatusCompleted]
              s1_store "u" (Upload.Build "u" UploadStatusProcessing 0 0 0 None)
              eq_refl) as (u1 & Hu1 & _).
  destruct (upload_persists [OpUpdateUploadStatus 6 "u" UploadStatusProcessing]
              _ "u" u1 Hu1) as (u' & Hu' & Hkeep).
  exists u'. split; [exact Hu'|].
  apply Hkeep.
  - intros o Ho. apply list_elem_of_singleton in Ho as ->. simpl. tauto.
  - vm_compute in Hu1. injection Hu1 as <-. simpl. eauto.
Defined.

(** ** The store: counting rows and appending transactions *)

(** X3: [n] calls of [IncrementProcessedRows] on a stored upload all
    succeed and change nothing but that upload's [ProcessedRows], which
    becomes the old value plus [n], wrapped to [int] (so exactly the old value
    plus [n] while that fits); on an id that is not stored every call fails
    with [ErrUploadNotFound] and the store stays as it is. *)
Theorem increment_times_adds (n : nat) (uploadID : string) (s : MemoryStore) :
  (forall u, uploads s !! uploadID = Some u ->
     Int64.in_range (Upload.ProcessedRows u) ->
     increment_times n uploadID s
     = mkStore
         (<[uploadID :=
              Upload.Build (Upload.ID u) (Upload.Status u)
                (Int64.wrap (Upload.ProcessedRows u + Z.of_nat n))
                (Upload.TotalRows u) (Upload.CreatedAt u) (Upload.CompletedAt u)]>
            (uploads s))
         (transactions s) (processedEvents s)
     /\ snd (IncrementProcessedRows uploadID (increment_times n uploadID s)) = None
     /\ (Upload.ProcessedRows u + Z.of_nat n <= Int64.max_int ->
         Int64.wrap (Upload.ProcessedRows u + Z.of_nat n)
         = Upload.ProcessedRows u + Z.of_nat n))
  /\ (uploads s !! uploadID = None ->
      increment_times n uploadID s = s
      /\ IncrementProcessedRows uploadID s = (s, Some ErrUploadNotFound)).
Proof.
  split.
  - intros u Hu Hr.
    assert (Hn : increment_times n uploadID s
      = mkStore
         (<[uploadID :=
              Upload.Build (Upload.ID u) (Upload.Status u)
                (Int64.wrap (Upload.ProcessedRows u + Z.of_nat n))
                (Upload.TotalRows u) (Upload.CreatedAt u) (Upload.CompletedAt u)]>
            (uploads s))
         (transactions s) (processedEvents s)).
    { induction n as [|n IH].
      - simpl. rewrite Z.add_0_r, wrap_small by done.
        destruct s as [up tr ev]. simpl in *. f_equal.
        destruct u. simpl. by rewrite insert_id.
      - unfold increment_times in *. simpl. rewrite IH.
        unfold IncrementProcessedRows. simpl. rewrite lookup_insert_eq. simpl.
        rewrite insert_insert_eq. unfold Int64.add. rewrite wrap_add_l.
        do 4 f_equal. lia. }
    split; [exact Hn|]. split.
    + rewrite Hn. unfold IncrementProcessedRows. simpl.
      by rewrite lookup_insert_eq.
    + intros Hfit. apply wrap_small.
      unfold Int64.in_range in *. unfold Int64.min_int in *. lia.
  - intros Hno.
    assert (Hs : IncrementProcessedRows uploadID s = (s, Some ErrUploadNotFound)).
    { unfold IncrementProcessedRows. by rewrite Hno. }
    split; [|done]. induction n as [|n IH]; [done|].
    unfold increment_times in *. simpl. rewrite IH. by rewrite Hs.
Qed.

Lemma increment_times_adds_witness :
  Upload.ProcessedRows <$> uploads (increment_times 5 "u" s1_store) !! "u" = Some 5.
Proof.
  destruct (increment_times_adds 5 "u" s1_store) as [Hinc _].
  destruct (Hinc (Upload.Build "u" UploadStatusProcessing 0 0 0 None) eq_refl)
    as (-> & _ & _).
  - vm_compute. split; congruence.
  - reflexivity.
Defined.

Lemma add_all_present (uploadID : string) (rows : list TransactionWithLine.t) :
  forall s, is_Some (uploads s !! uploadID) ->
    add_all uploadID rows s
    = match rows with
      | [] => s
      | _ => mkStore (uploads s)
               (<[uploadID := txs_of s uploadID ++ rows]> (transactions s))
               (processedEvents s)
      end.
Proof.
  induction rows as [|row rows IH]; intros s Hu; [done|].
  unfold add_all in *. simpl. unfold AddTransaction at 2.
  destruct Hu as [u Hu]. rewrite Hu. simpl. rewrite IH by (simpl; eauto).
  destruct rows as [|row' rows].
  - by destruct row.
  - simpl. unfold txs_of. simpl. rewrite lookup_insert_eq. simpl.
    rewrite insert_insert_eq. destruct row. simpl. by rewrite <- app_assoc.
Qed.

(** X4: [AddTransaction] called for a list of rows on a stored upload
    appends them to that upload's list in call order, behind the rows already
    there, and changes nothing else: not the upload rows, not the lists of
    other uploads, not the processed-event set.  On an id that is not stored
    it adds nothing. *)
Theorem add_all_appends (uploadID : string) (rows : list TransactionWithLine.t)
    (s : MemoryStore) :
  (is_Some (uploads s !! uploadID) ->
   txs_of (add_all uploadID rows s) uploadID = txs_of s uploadID ++ rows
   /\ uploads (add_all uploadID rows s) = uploads s
   /\ processedEvents (add_all uploadID rows s) = processedEvents s
   /\ (forall other, other <> uploadID ->
         transactions (add_all uploadID rows s) !! other = transactions s !! other))
  /\ (uploads s !! uploadID = None -> add_all uploadID rows s = s).
Proof.
  split.
  - intros Hu. rewrite add_all_present by done. destruct rows as [|row rows].
    + rewrite app_nil_r. by repeat split.
    + simpl. split; [|split; [done|split; [done|]]].
      * unfold txs_of at 1. simpl. by rewrite lookup_insert_eq.
      * intros other Hne. by rewrite lookup_insert_ne.
  - intros Hno. induction rows as [|row rows IH]; [done|].
    unfold add_all in *. simpl. unfold AddTransaction at 2. by rewrite Hno.
Qed.

Lemma add_all_appends_witness :
  length (txs_of (add_all "u"
                    [TransactionWithLine.Build
                       (mk_tx TransactionTypeCredit 1 TransactionStatusSuccess) 5;
                     TransactionWithLine.Build
                       (mk_tx TransactionTypeDebit 2 TransactionStatusFailed) 6]
                    s1_store) "u")
  = 6%nat.
Proof.
  destruct (add_all_appends "u"
              [TransactionWithLine.Build
                 (mk_tx TransactionTypeCredit 1 TransactionStatusSuccess) 5;
               TransactionWithLine.Build
                 (mk_tx TransactionTypeDebit 2 TransactionStatusFailed) 6]
              s1_store) as [Hadd _].
  destruct Hadd as (-> & _); [vm_compute; eauto|reflexivity].
Defined.

(** ** The store: how the balance composes *)

Lemma GetBalance_eq (s : MemoryStore) (uploadID : string) :
  GetBalance uploadID s
  = match uploads s !! uploadID with
    | None => (0, Some ErrUploadNotFound)
    | Some _ => (Int64.wrap (success_sum (txs_of s uploadID)), None)
    end.
Proof.
  unfold GetBalance, txs_of. destruct (uploads s !! uploadID); [|done].
  destruct (transactions s !! uploadID) as [txs|]; simpl; [|done].
  rewrite fold_balance_wrap by (vm_compute; split; congruence). done.
Qed.

Lemma success_sum_app (l1 l2 : list TransactionWithLine.t) :
  success_sum (l1 ++ l2) = success_sum l1 + success_sum l2.
Proof.
  unfold success_sum. rewrite filter_app, map_app.
  induction (map _ (filter is_success l1)) as [|z zs IH]; simpl; lia.
Qed.

Lemma success_sum_perm (l1 l2 : list TransactionWithLine.t) :
  l1 ≡ₚ l2 -> success_sum l1 = success_sum l2.
Proof.
  induction 1 as [|t l1 l2 Hp IH|t1 t2 l|l1 l2 l3 H12 IH12 H23 IH23].
  - done.
  - change (t :: l1) with ([t] ++ l1). change (t :: l2) with ([t] ++ l2).
    rewrite !success_sum_app. lia.
  - change (t2 :: t1 :: l) with ([t2] ++ [t1] ++ l).
    change (t1 :: t2 :: l) with ([t1] ++ [t2] ++ l).
    rewrite !success_sum_app. lia.
  - congruence.
Qed.

(** X5: on a stored upload, [AddTransaction] moves the balance by exactly
    the row's contribution, in [int64] arithmetic: [+amount] for a SUCCESS
    credit, [-amount] for a SUCCESS debit, nothing for any other row; and it
    leaves the balance of every other upload as it was. *)
Theorem AddTransaction_balance (s : MemoryStore) (uploadID : string)
    (tx : Transaction.t) (lineNumber : Z) :
  is_Some (uploads s !! uploadID) ->
  GetBalance uploadID (fst (AddTransaction uploadID tx lineNumber s))
  = (Int64.wrap
       (fst (GetBalance uploadID s)
        + (if decide (Transaction.Status tx = TransactionStatusSuccess)
           then signed_amount tx else 0)),
     None)
  /\ (forall other, other <> uploadID ->
        GetBalance other (fst (AddTransaction uploadID tx lineNumber s))
        = GetBalance other s).
Proof.
  intros [u Hu]. split.
  - rewrite !GetBalance_eq. unfold AddTransaction. rewrite Hu. simpl. rewrite Hu.
    unfold txs_of at 1. simpl. rewrite lookup_insert_eq. simpl.
    rewrite success_sum_app, wrap_add_l. do 2 f_equal.
    unfold success_sum. rewrite filter_cons, filter_nil. unfold is_success. simpl.
    repeat case_decide; simpl; (lia || congruence).
  - intros other Hne. rewrite !GetBalance_eq. unfold AddTransaction. rewrite Hu.
    simpl. unfold txs_of. simpl. by rewrite lookup_insert_ne.
Qed.

Lemma AddTransaction_balance_witness :
  GetBalance "u" (fst (AddTransaction "u"
                         (mk_tx TransactionTypeDebit 50000 TransactionStatusSuccess)
                         5 s1_store))
  = (200000, None).
Proof.
  destruct (AddTransaction_balance s1_store "u"
              (mk_tx TransactionTypeDebit 50000 TransactionStatusSuccess) 5)
    as [-> _]; [vm_compute; eauto|reflexivity].
Defined.

(** X6: the balance does not depend on the order in which the rows were
    committed: two stores that both hold the upload, with transaction lists
    that are permutations of each other, give the same balance. *)
Theorem GetBalance_order_independent (s s' : MemoryStore) (uploadID : string) :
  is_Some (uploads s !! uploadID) ->
  is_Some (uploads s' !! uploadID) ->
  txs_of s uploadID ≡ₚ txs_of s' uploadID ->
  GetBalance uploadID s = GetBalance uploadID s'.
Proof.
  intros [u Hu] [u' Hu'] Hperm. rewrite !GetBalance_eq, Hu, Hu'.
  by rewrite (success_sum_perm _ _ Hperm).
Qed.

Lemma GetBalance_order_independent_witness :
  GetBalance "u"
    (run [OpCreateUpload 0 "u";
          OpAddTransaction "u" (mk_tx TransactionTypeCredit 500000 TransactionStatusSuccess) 2;
          OpAddTransaction "u" (mk_tx TransactionTypeCredit 300000 TransactionStatusPending) 4;
          OpAddTransaction "u" (mk_tx TransactionTypeDebit 250000 TransactionStatusSuccess) 1;
          OpAddTransaction "u" (mk_tx TransactionTypeDebit 100000 TransactionStatusFailed) 3])
  = GetBalance "u" s1_store.
Proof.
  apply GetBalance_order_independent; [vm_compute; eauto|vm_compute; eauto|].
  vm_compute.
  apply perm_trans with
    (l' := [TransactionWithLine.Build (mk_tx TransactionTypeCredit 500000 TransactionStatusSuccess) 2;
            TransactionWithLine.Build (mk_tx TransactionTypeDebit 250000 TransactionStatusSuccess) 1;
            TransactionWithLine.Build (mk_tx TransactionTypeCredit 300000 TransactionStatusPending) 4;
            TransactionWithLine.Build (mk_tx TransactionTypeDebit 100000 TransactionStatusFailed) 3]).
  - apply perm_skip, perm_swap.
  - apply perm_trans with
      (l' := [TransactionWithLine.Build (mk_tx TransactionTypeDebit 250000 TransactionStatusSuccess) 1;
              TransactionWithLine.Build (mk_tx TransactionTypeCredit 500000 TransactionStatusSuccess) 2;
              TransactionWithLine.Build (mk_tx TransactionTypeCredit 300000 TransactionStatusPending) 4;
              TransactionWithLine.Build (mk_tx TransactionTypeDebit 100000 TransactionStatusFailed) 3]).
    + apply perm_swap.
    + do 2 apply perm_skip. apply perm_swap.
Defined.

(** ** The store: queries and the bookkeeping operations *)

Lemma bookkeeping_frame (s : MemoryStore) (o : op) :
  bookkeeping o ->
  transactions (apply_op s o) = transactions s
  /\ forall id, uploads (apply_op s o) !! id = None <-> uploads s !! id = None.
Proof.
  destruct o as [now id|now id st|id|id tx ln|id]; simpl; try done; intros _.
  - unfold UpdateUploadStatus. destruct (uploads s !! id) as [u|] eqn:Hu; [|done].
    simpl. split; [done|]. intros id'.
    destruct (decide (id = id')) as [->|Hne].
    + rewrite lookup_insert_eq, Hu. split; congruence.
    + by rewrite lookup_insert_ne.
  - unfold IncrementProcessedRows. destruct (uploads s !! id) as [u|] eqn:Hu; [|done].
    simpl. split; [done|]. intros id'.
    destruct (decide (id = id')) as [->|Hne].
    + rewrite lookup_insert_eq, Hu. split; congruence.
    + by rewrite lookup_insert_ne.
Qed.

(** X7: [UpdateUploadStatus], [IncrementProcessedRows] and
    [MarkEventProcessed], whether they succeed or fail, change the answer of
    no query on transactions: [GetBalance] and [GetIssues] return for every
    upload id, page, page size and filter what they returned before. *)
Theorem bookkeeping_keeps_queries (s : MemoryStore) (o : op) :
  bookkeeping o ->
  forall uploadID,
    GetBalance uploadID (apply_op s o) = GetBalance uploadID s
    /\ forall page perPage status,
         GetIssues uploadID page perPage status (apply_op s o)
         = GetIssues uploadID page perPage status s.
Proof.
  intros Hb uploadID. destruct (bookkeeping_frame s o Hb) as [Htx Hup].
  specialize (Hup uploadID). unfold GetBalance, GetIssues. rewrite Htx.
  destruct (uploads (apply_op s o) !! uploadID) as [u'|],
    (uploads s !! uploadID) as [u|]; try done.
  - destruct Hup as [_ Hup]. by specialize (Hup eq_refl).
  - destruct Hup as [Hup _]. by specialize (Hup eq_refl).
Qed.

Lemma bookkeeping_keeps_queries_witness :
  GetBalance "u" (apply_op s1_store (OpUpdateUploadStatus 9 "u" UploadStatusFailed))
  = GetBalance "u" s1_store.
Proof.
  apply (bookkeeping_keeps_queries s1_store
           (OpUpdateUploadStatus 9 "u" UploadStatusFailed)).
  exact I.
Defined.

(** ** The store: what the issue list holds *)

Lemma issues_fold_Forall (P : IssueTransaction.t -> Prop)
    (status : option TransactionStatus) (txs : list TransactionWithLine.t) :
  (forall t, is_issue None t ->
     (forall wanted, status = Some wanted -> is_issue status t) ->
     P (to_issue t)) ->
  forall acc, Forall P acc -> Forall P (fold_left (issues_step status) txs acc).
Proof.
  intros HP. induction txs as [|t txs IH]; intros acc Hacc; [done|].
  simpl. apply IH. unfold issues_step.
  destruct status as [wanted|]; simpl.
  - case_bool_decide as Hw; [done|]. case_decide as Hi; [|done].
    apply Forall_app. split; [done|]. apply Forall_singleton.
    apply (HP t); [done|]. intros w [= <-]. unfold is_issue. simpl.
    by destruct (decide (Transaction.Status (TransactionWithLine.Transaction_ t) = wanted)).
  - case_decide as Hi; [|done].
    apply Forall_app. split; [done|]. apply Forall_singleton.
    apply (HP t); [done|]. intros w Hw. discriminate.
Qed.

Lemma wrap_le (z : Z) : 0 <= z -> Int64.wrap z <= z.
Proof.
  intros Hz. unfold Int64.wrap.
  pose proof (Z.mod_le (z + 2 ^ 63) (2 ^ 64) ltac:(lia) ltac:(lia)). lia.
Qed.

Lemma paginate_length (l : list IssueTransaction.t) (page perPage : Z) items total err :
  paginate l page perPage = Returns (items, total, err) ->
  Z.of_nat (length items) <= effective_perPage perPage
  /\ Z.of_nat (length items) <= total.
Proof.
  unfold paginate, effective_perPage.
  set (k := if decide (perPage < 1) then 10 else perPage).
  assert (Hk : 1 <= k) by (unfold k; case_decide; lia).
  set (start := Int64.mul _ _). clearbody start.
  destruct (decide (start >= Z.of_nat (length l))).
  - intros [= <- <- <-]. simpl. lia.
  - set (end_ := if decide (Int64.add start k > _) then _ else _).
    assert (Hend : 0 <= start -> end_ <= start + k).
    { intros Hs. unfold end_, Int64.add.
      pose proof (wrap_le (start + k) ltac:(lia)). case_decide; lia. }
    clearbody end_. unfold slice. case_decide as Hsl; [|done].
    specialize (Hend ltac:(lia)).
    intros [= <- <- <-]. rewrite length_take, length_drop. lia.
Qed.

(** X8: whatever [GetIssues] returns, for every page, page size and filter
    (also a filter that is neither FAILED nor PENDING, and also when the page
    arithmetic wraps): never more rows than the page size in force (10 when
    [perPage < 1]) nor than the reported total, every row with status FAILED
    or PENDING, and every row with the filter's status when there is a
    filter.  A SUCCESS row is never returned. *)
Theorem GetIssues_items_bounded (s : MemoryStore) (uploadID : string)
    (page perPage : Z) (status : option TransactionStatus) items total err :
  GetIssues uploadID page perPage status s = Returns (items, total, err) ->
  Z.of_nat (length items) <= effective_perPage perPage
  /\ Z.of_nat (length items) <= total
  /\ Forall (fun it => issue_status it = TransactionStatusFailed
                       \/ issue_status it = TransactionStatusPending) items
  /\ (forall wanted, status = Some wanted ->
        Forall (fun it => issue_status it = wanted) items).
Proof.
  unfold GetIssues.
  destruct (uploads s !! uploadID) as [u|].
  2:{ intros [= <- <- <-]. unfold effective_perPage. simpl.
      split; [case_decide; lia|]. split; [lia|]. split; [done|]. by intros. }
  destruct (transactions s !! uploadID) as [txs|].
  2:{ intros [= <- <- <-]. unfold effective_perPage. simpl.
      split; [case_decide; lia|]. split; [lia|]. split; [done|]. by intros. }
  intros Hret.
  destruct (paginate_length _ _ _ _ _ _ Hret) as [Hlen Htot].
  destruct (paginate_returns _ _ _ _ _ _ Hret) as (_ & _ & a & b & ->).
  split; [done|]. split; [done|]. split.
  - apply Forall_take, Forall_drop.
    apply issues_fold_Forall; [|done]. intros t Hi _. exact Hi.
  - intros wanted ->. apply Forall_take, Forall_drop.
    apply issues_fold_Forall; [|done]. intros t _ Hw.
    by apply (Hw wanted).
Qed.

Lemma GetIssues_items_bounded_witness :
  Forall (fun it => issue_status it = TransactionStatusPending)
    [IssueTransaction.Build
       (mk_tx TransactionTypeCredit 300000 TransactionStatusPending) 4].
Proof.
  destruct (GetIssues_items_bounded s1_store "u" (2 ^ 62 + 1) 4
              (Some TransactionStatusPending)
              [IssueTransaction.Build
                 (mk_tx TransactionTypeCredit 300000 TransactionStatusPending) 4]
              1 None)
    as (_ & _ & _ & Hw).
  - by vm_compute.
  - by apply Hw.
Defined.

Lemma candidates_length_partition (txs : list TransactionWithLine.t) :
  length (candidates None txs)
  = (length (candidates (Some TransactionStatusFailed) txs)
     + length (candidates (Some TransactionStatusPending) txs))%nat.
Proof.
  unfold candidates. rewrite !length_map.
  induction txs as [|t txs IH]; [done|].
  rewrite !filter_cons.
  repeat case_decide; unfold is_issue in *; simpl in *;
    unfold TransactionStatusFailed, TransactionStatusPending in *;
    first [lia | tauto | congruence].
Qed.

Lemma issues_fold_other (st : TransactionStatus) (txs : list TransactionWithLine.t) :
  st <> TransactionStatusFailed -> st <> TransactionStatusPending ->
  fold_left (issues_step (Some st)) txs [] = [].
Proof.
  intros Hf Hp.
  assert (H : Forall (fun _ => False) (fold_left (issues_step (Some st)) txs [])).
  { apply issues_fold_Forall; [|done]. intros t Hi Hw.
    specialize (Hw st eq_refl). unfold is_issue in *. simpl in *.
    destruct Hi; congruence. }
  destruct (fold_left _ _ _) as [|it its]; [done|].
  by apply Forall_cons in H as [[] _].
Qed.

(** X9: for a stored upload and a page window that fits in [int], the
    total reported without a filter is the total reported with the FAILED
    filter plus the total reported with the PENDING filter; and with a filter
    of any other status the answer is the empty list with total 0. *)
Theorem GetIssues_totals_partition (s : MemoryStore) (uploadID : string)
    (page perPage : Z) :
  is_Some (uploads s !! uploadID) ->
  window_fits page perPage ->
  (exists itemsAll itemsFailed itemsPending totalFailed totalPending,
     GetIssues uploadID page perPage None s
     = Returns (itemsAll, totalFailed + totalPending, None)
     /\ GetIssues uploadID page perPage (Some TransactionStatusFailed) s
        = Returns (itemsFailed, totalFailed, None)
     /\ GetIssues uploadID page perPage (Some TransactionStatusPending) s
        = Returns (itemsPending, totalPending, None))
  /\ (forall st, st <> TransactionStatusFailed -> st <> TransactionStatusPending ->
        GetIssues uploadID page perPage (Some st) s = Returns ([], 0, None)).
Proof.
  intros Hu Hw. split.
  - do 5 eexists.
    rewrite (GetIssues_window s uploadID page perPage (Some TransactionStatusFailed))
      by (done || (right; by left)).
    rewrite (GetIssues_window s uploadID page perPage (Some TransactionStatusPending))
      by (done || (right; by right)).
    rewrite (GetIssues_window s uploadID page perPage None) by (done || by left).
    split; [|split; reflexivity].
    by rewrite candidates_length_partition, Nat2Z.inj_add.
  - intros st Hf Hp. unfold GetIssues. destruct Hu as [u ->].
    destruct (transactions s !! uploadID) as [txs|]; [|done].
    rewrite issues_fold_other by done.
    rewrite paginate_page by done. by rewrite page_of_nil.
Qed.

Lemma GetIssues_totals_partition_witness :
  GetIssues "u" 1 10 (Some TransactionStatusSuccess) s1_store = Returns ([], 0, None).
Proof.
  destruct (GetIssues_totals_partition s1_store "u" 1 10) as [_ Hother].
  - vm_compute. eauto.
  - vm_compute. repeat split; congruence.
  - apply Hother; vm_compute; congruence.
Defined.

(** X10: the pagination law for page windows that fit in [int]: with
    [perPage >= 1] and [total + perPage] within [int], page [p] of
    [GetIssues] is the run of [perPage] rows of the filtered list from index
    [(p - 1) * perPage]; a page starting at or past [total] is empty and
    reports the same total; every page from 1 to the ceiling of
    [total / perPage] has a window that fits; and those pages concatenate to
    the whole filtered list, in order. *)
Theorem GetIssues_pages_tile (s : MemoryStore) (uploadID : string)
    (perPage : Z) (status : option TransactionStatus) :
  is_Some (uploads s !! uploadID) ->
  issue_filter status ->
  1 <= perPage ->
  Z.of_nat (length (candidates status (txs_of s uploadID))) + perPage
  <= Int64.max_int ->
  (forall p, window_fits p perPage ->
     GetIssues uploadID p perPage status s
     = Returns (page_of (candidates status (txs_of s uploadID)) p perPage,
                Z.of_nat (length (candidates status (txs_of s uploadID))), None))
  /\ (forall p, window_fits p perPage ->
        (p - 1) * perPage
        >= Z.of_nat (length (candidates status (txs_of s uploadID))) ->
        GetIssues uploadID p perPage status s
        = Returns ([], Z.of_nat (length (candidates status (txs_of s uploadID))), None))
  /\ (forall p,
        1 <= p <= Z.of_nat (page_count
                              (Z.of_nat (length (candidates status (txs_of s uploadID))))
                              perPage) ->
        window_fits p perPage)
  /\ concat (map (fun i => page_of (candidates status (txs_of s uploadID))
                             (Z.of_nat i) perPage)
               (seq 1 (page_count
                         (Z.of_nat (length (candidates status (txs_of s uploadID))))
                         perPage)))
     = candidates status (txs_of s uploadID).
Proof. intros Hu Hf Hk Hfit. by apply GetIssues_pagination_law. Qed.

Lemma GetIssues_pages_tile_witness :
  GetIssues "u" 2 1 None s1_store
  = Returns ([IssueTransaction.Build
                (mk_tx TransactionTypeCredit 300000 TransactionStatusPending) 4],
             2, None)
  /\ GetIssues "u" 3 1 None s1_store = Returns ([], 2, None).
Proof.
  destruct (GetIssues_pages_tile s1_store "u" 1 None) as (Hpage & Hpast & _ & _).
  - vm_compute. eauto.
  - by left.
  - lia.
  - vm_compute. congruence.
  - split.
    + apply Hpage. vm_compute. repeat split; congruence.
    + apply Hpast; vm_compute; [repeat split|]; congruence.
Defined.

(** ** The retry runner: bounds and outcomes *)

Lemma calculateBackoff_le_max (attempt : Z) (baseDelay maxDelay : retry.Duration) :
  retry.calculateBackoff attempt baseDelay maxDelay <= maxDelay.
Proof. unfold retry.calculateBackoff. case_decide; lia. Qed.

Lemma outcome_S {St : Type} (fn : St -> St * option error) (s : St) (i : nat) :
  outcome fn s (S i) = outcome fn (fst (fn s)) i.
Proof. unfold outcome. by rewrite state_after_S. Qed.

Lemma loop_summary {St : Type} (ctx_done : Z -> option error)
    (fn : St -> St * option error) (cfg : retry.Config) (remaining : nat) :
  forall attempt lastErr s s' r delays,
    attempt + Z.of_nat remaining = retry.MaxAttempts cfg ->
    retry.loop ctx_done fn cfg remaining attempt lastErr s = (s', r, delays) ->
    exists k : nat,
      (k <= remaining)%nat
      /\ s' = state_after fn s k
      /\ (length delays <= k)%nat
      /\ (length delays <= pred remaining)%nat
      /\ Forall (fun d => d <= retry.MaxDelay cfg) delays
      /\ (forall i, (S i < k)%nat ->
            outcome fn s i <> None /\ ctx_done (attempt + Z.of_nat i) = None)
      /\ loop_ending ctx_done fn cfg remaining attempt lastErr s k r.
Proof.
  induction remaining as [|remaining IH]; intros attempt lastErr s s' r delays Hinv.
  - simpl. intros [= <- <- <-]. exists 0%nat.
    split; [lia|]. split; [done|]. split; [simpl; lia|]. split; [simpl; lia|].
    split; [done|]. split; [intros i Hi; lia|]. by left.
  - cbn [retry.loop]. destruct (fn s) as [s1 err] eqn:Hfn.
    destruct err as [e|].
    2:{ intros [= <- <- <-]. exists 1%nat.
        split; [lia|]. split; [by rewrite state_after_succ; simpl; rewrite Hfn|].
        split; [simpl; lia|]. split; [simpl; lia|]. split; [done|].
        split; [intros i Hi; lia|].
        right; left. split; [done|]. exists 0%nat. split; [done|].
        unfold outcome. simpl. by rewrite Hfn. }
    case_decide as Hlast.
    { intros [= <- <- <-]. exists 1%nat.
      split; [lia|]. split; [by rewrite state_after_succ; simpl; rewrite Hfn|].
      split; [simpl; lia|]. split; [simpl; lia|]. split; [done|].
      split; [intros i Hi; lia|].
      right; right; right. exists 0%nat, e.
      split; [done|]. split; [unfold outcome; simpl; by rewrite Hfn|].
      split; [done|]. lia. }
    destruct (ctx_done attempt) as [ce|] eqn:Hctx.
    { intros [= <- <- <-]. exists 1%nat.
      split; [lia|]. split; [by rewrite state_after_succ; simpl; rewrite Hfn|].
      split; [simpl; lia|]. split; [simpl; lia|].
      split; [apply Forall_singleton, calculateBackoff_le_max|].
      split; [intros i Hi; lia|].
      right; right; left. exists 0%nat, ce.
      split; [done|]. split; [done|].
      split; [unfold outcome; simpl; by rewrite Hfn|].
      split; [by rewrite Z.add_0_r|]. lia. }
    destruct (retry.loop ctx_done fn cfg remaining (attempt + 1) (Some e) s1)
      as [[s2 r2] delays2] eqn:Hloop.
    intros [= <- <- <-].
    destruct (IH (attempt + 1) (Some e) s1 s2 r2 delays2 ltac:(lia) Hloop)
      as (k & Hk & Hs & Hd1 & Hd2 & Hmax & Hprev & Hend).
    assert (Hs1 : s1 = fst (fn s)) by by rewrite Hfn.
    assert (Hk1 : (1 <= k)%nat).
    { destruct Hend as [(-> & -> & _)|[(_ & j & -> & _)|[(j & ? & -> & _)|(j & ? & -> & _)]]];
        lia. }
    exists (S k).
    split; [lia|]. split; [by rewrite state_after_S, <- Hs1|].
    split; [simpl; lia|]. split; [simpl; lia|].
    split; [apply Forall_cons; split; [apply calculateBackoff_le_max|done]|].
    split.
    { intros [|i] Hi.
      - split; [unfold outcome; simpl; by rewrite Hfn|by rewrite Z.add_0_r].
      - rewrite outcome_S, <- Hs1.
        destruct (Hprev i ltac:(lia)) as [Ho Hc]. split; [done|].
        rewrite <- Hc. f_equal. lia. }
    destruct Hend as [(-> & _)|[(-> & j & -> & Hj)|[(j & ce & -> & -> & Hj & Hc & Hlt)
                                                    |(j & e' & -> & Hj & -> & Hr)]]].
    + lia.
    + right; left. split; [done|]. exists (S j). split; [done|].
      by rewrite outcome_S, <- Hs1.
    + right; right; left. exists (S j), ce. split; [done|]. split; [done|].
      split; [by rewrite outcome_S, <- Hs1|].
      split; [rewrite <- Hc; f_equal; lia|lia].
    + right; right; right. exists (S j), e'. split; [done|].
      split; [by rewrite outcome_S, <- Hs1|]. split; [done|lia].
Qed.

(** X11: whatever the operation, the context and the options, [Do] calls
    the operation at most [MaxAttempts] times (never when
    [MaxAttempts <= 0]), starts at most [MaxAttempts - 1] sleeps and never
    more sleeps than it made calls, and no sleep is longer than [MaxDelay],
    also where the doubling overflows. *)
Theorem Do_bounds {St : Type} (ctx_done : Z -> option error)
    (fn : St -> St * option error) (opts : list retry.Option) (s : St) :
  let cfg := retry.applyOptions opts in
  let '(s', _, delays) := retry.Do ctx_done fn opts s in
  exists k : nat,
    s' = state_after fn s k
    /\ Z.of_nat k <= Z.max 0 (retry.MaxAttempts cfg)
    /\ (length delays <= k)%nat
    /\ Z.of_nat (length delays) <= Z.max 0 (retry.MaxAttempts cfg - 1)
    /\ Forall (fun d => d <= retry.MaxDelay cfg) delays.
Proof.
  intros cfg. unfold retry.Do. fold cfg.
  destruct (retry.loop _ _ _ _ _ _ _) as [[s' r] delays] eqn:Hloop.
  destruct (Z_le_gt_dec (retry.MaxAttempts cfg) 0) as [Hle|Hgt].
  - replace (Z.to_nat (retry.MaxAttempts cfg)) with 0%nat in Hloop by lia.
    simpl in Hloop. injection Hloop as <- <- <-. exists 0%nat.
    split; [done|]. split; [lia|]. split; [done|]. split; [simpl; lia|done].
  - destruct (loop_summary ctx_done fn cfg (Z.to_nat (retry.MaxAttempts cfg)) 0 None
                s s' r delays ltac:(lia) Hloop)
      as (k & Hk & Hs & Hd1 & Hd2 & Hmax & _).
    exists k. split; [done|]. split; [lia|]. split; [done|]. split; [lia|done].
Qed.

(** X12: how [Do] ends, in every case.  After [k] calls, all but the last
    of which failed and were followed by a sleep that ran to the timer, it
    returns [nil] (the last call succeeded, or there was no call because
    [MaxAttempts <= 0]), or the context's error (the last call failed, was not
    the last allowed, and the context fired during the sleep after it), or the
    wrapped max-retries error around the last call's error (the last call was
    call number [MaxAttempts] and failed).  It never returns the operation's
    error unwrapped. *)
Theorem Do_outcome_cases {St : Type} (ctx_done : Z -> option error)
    (fn : St -> St * option error) (opts : list retry.Option) (s : St) :
  let cfg := retry.applyOptions opts in
  let '(s', r, _) := retry.Do ctx_done fn opts s in
  exists k : nat,
    s' = state_after fn s k
    /\ (forall i, (S i < k)%nat ->
          outcome fn s i <> None /\ ctx_done (Z.of_nat i) = None)
    /\ ((r = None /\ k = 0%nat /\ retry.MaxAttempts cfg <= 0)
        \/ (r = None /\ exists j, k = S j /\ outcome fn s j = None)
        \/ (exists j e, k = S j /\ r = Some e /\ outcome fn s j <> None
                        /\ ctx_done (Z.of_nat j) = Some e
                        /\ Z.of_nat k < retry.MaxAttempts cfg)
        \/ (exists j e, k = S j /\ outcome fn s j = Some e
                        /\ r = Some (ErrMaxRetriesExceeded (retry.MaxAttempts cfg) e)
                        /\ Z.of_nat k = retry.MaxAttempts cfg)).
Proof.
  intros cfg. unfold retry.Do. fold cfg.
  destruct (retry.loop _ _ _ _ _ _ _) as [[s' r] delays] eqn:Hloop.
  destruct (Z_le_gt_dec (retry.MaxAttempts cfg) 0) as [Hle|Hgt].
  - replace (Z.to_nat (retry.MaxAttempts cfg)) with 0%nat in Hloop by lia.
    simpl in Hloop. injection Hloop as <- <- <-. exists 0%nat.
    split; [done|]. split; [intros i Hi; lia|]. by left.
  - destruct (loop_summary ctx_done fn cfg (Z.to_nat (retry.MaxAttempts cfg)) 0 None
                s s' r delays ltac:(lia) Hloop)
      as (k & Hk & Hs & _ & _ & _ & Hprev & Hend).
    exists k. split; [done|]. split.
    { intros i Hi. specialize (Hprev i Hi). by rewrite Z.add_0_l in Hprev. }
    destruct Hend as [(-> & H0 & _)|[(-> & j & -> & Hj)|[(j & ce & -> & -> & Hj & Hc & Hlt)
                                                         |(j & e' & -> & Hj & -> & Hr)]]].
    + lia.
    + right; left. eauto.
    + right; right; left. exists j, ce. rewrite Z.add_0_l in Hc.
      repeat (split; [done|]). lia.
    + right; right; right. exists j, e'. repeat (split; [done|]). lia.
Qed.

(** X13: the retry protocol, read forwards.  If attempts [0 .. k-1] fail,
    each followed by a sleep that runs to the timer, then: a success of
    attempt [k < MaxAttempts] ends [Do] with [nil] after [k] sleeps; the
    context firing during the sleep after a failed attempt
    [k < MaxAttempts - 1] ends it with the context's error after [k + 1]
    sleeps; and a failure of attempt [k = MaxAttempts - 1] ends it with the
    max-retries error wrapping that failure, after [k] sleeps.  The sleeps are
    [calculateBackoff 0], [calculateBackoff 1], ... in order, and the state is
    the one the operation left after [k + 1] calls. *)
Theorem Do_protocol {St : Type} (ctx_done : Z -> option error)
    (fn : St -> St * option error) (opts : list retry.Option) (s : St) (k : nat) :
  let cfg := retry.applyOptions opts in
  fails_through ctx_done fn s k ->
  (Z.of_nat k < retry.MaxAttempts cfg -> outcome fn s k = None ->
   retry.Do ctx_done fn opts s = (state_after fn s (S k), None, backoffs cfg 0 k))
  /\ (forall ctxErr,
        Z.of_nat k < retry.MaxAttempts cfg - 1 -> outcome fn s k <> None ->
        ctx_done (Z.of_nat k) = Some ctxErr ->
        retry.Do ctx_done fn opts s
        = (state_after fn s (S k), Some ctxErr, backoffs cfg 0 (S k)))
  /\ (forall e,
        Z.of_nat k = retry.MaxAttempts cfg - 1 -> outcome fn s k = Some e ->
        retry.Do ctx_done fn opts s
        = (state_after fn s (S k),
           Some (ErrMaxRetriesExceeded (retry.MaxAttempts cfg) e),
           backoffs cfg 0 k)).
Proof.
  intros cfg Hfail. split; [|split].
  - intros Hk Hok. by apply Do_first_success.
  - intros ctxErr Hk Herr Hctx. by apply Do_cancelled.
  - intros e Hk Herr. by apply Do_exhausted.
Qed.

Lemma Do_protocol_witness :
  retry.Do never_done always_failing [retry.WithMaxAttempts 5] tt
  = (tt, Some (ErrMaxRetriesExceeded 5 (ErrIO "down")),
     [1000000000; 2000000000; 4000000000; 8000000000]).
Proof.
  destruct (Do_protocol never_done always_failing [retry.WithMaxAttempts 5] tt 4)
    as (_ & _ & Hlast).
  - intros i Hi. split; [discriminate|reflexivity].
  - apply (Hlast (ErrIO "down")); reflexivity.
Defined.

Lemma calculateBackoff_min_witness :
  retry.calculateBackoff 3 (1 * retry.Second) (30 * retry.Second) = 8 * retry.Second
  /\ retry.calculateBackoff 5 (1 * retry.Second) (30 * retry.Second) = 30 * retry.Second.
Proof.
  split.
  - rewrite calculateBackoff_min; [reflexivity|lia|vm_compute; split; congruence].
  - rewrite calculateBackoff_min; [reflexivity|lia|vm_compute; split; congruence].
Defined.

(** X15: options apply in order, and [WithMaxAttempts] sets nothing but
    [MaxAttempts]: after any options, a final [WithMaxAttempts n] leaves the
    delays those options gave and makes [MaxAttempts] [n]; with
    [WithMaxAttempts] options only, the delays are the defaults of 1s and
    30s. *)
Theorem applyOptions_WithMaxAttempts (opts : list retry.Option) (n : Z) :
  retry.applyOptions (opts ++ [retry.WithMaxAttempts n])
  = retry.mkConfig n (retry.BaseDelay (retry.applyOptions opts))
      (retry.MaxDelay (retry.applyOptions opts))
  /\ (Forall (fun opt => exists m, opt = retry.WithMaxAttempts m) opts ->
      retry.BaseDelay (retry.applyOptions opts) = 1 * retry.Second
      /\ retry.MaxDelay (retry.applyOptions opts) = 30 * retry.Second).
Proof.
  split.
  - unfold retry.applyOptions. by rewrite fold_left_app.
  - unfold retry.applyOptions.
    induction opts as [|opt opts IH] using rev_ind; [done|].
    intros Hall. apply Forall_app in Hall as [Hall Hopt].
    apply Forall_singleton in Hopt as [m ->].
    rewrite fold_left_app. simpl. by apply IH.
Qed.

Lemma applyOptions_WithMaxAttempts_witness :
  retry.applyOptions [retry.WithMaxAttempts 3; retry.WithMaxAttempts 7]
  = retry.mkConfig 7 (1 * retry.Second) (30 * retry.Second).
Proof.
  destruct (applyOptions_WithMaxAttempts [retry.WithMaxAttempts 3] 7) as [Heq Hd].
  change [retry.WithMaxAttempts 3; retry.WithMaxAttempts 7]
    with ([retry.WithMaxAttempts 3] ++ [retry.WithMaxAttempts 7]).
  rewrite Heq. destruct Hd as [-> ->]; [|reflexivity].
  apply Forall_singleton. by exists 3.
Defined.

(** ** The consumer on the in-memory store *)

Lemma Consume_poison (s : MemoryStore) (event : Event.t) (cause : error) :
  fst (IsEventProcessed (Event.ID event) s) = false ->
  poison_cause s event = Some cause ->
  Consume event s = (s, Some cause).
Proof.
  intros Hp Hc. unfold Consume, poison_cause in *. simpl in *. rewrite Hp.
  destruct (Event.Payload event) as [p|ty].
  - unfold AddTransaction.
    destruct (uploads s !! ReconciliationEvent.UploadID p); [done|].
    by injection Hc as <-.
  - by injection Hc as <-.
Qed.

Lemma poison_cause_None (s : MemoryStore) (event : Event.t) :
  poison_cause s event = None -> applicable s event.
Proof.
  unfold poison_cause, applicable. destruct (Event.Payload event) as [p|ty]; [|done].
  destruct (uploads s !! ReconciliationEvent.UploadID p) eqn:Hu; [|done].
  intros _. exists p. by rewrite Hu.
Qed.

(** X16: on the in-memory store [Consume] succeeds exactly when it leaves
    the event id in the processed-event set.  When it fails, the error is the
    invalid-payload error or [ErrUploadNotFound], the store is exactly as it
    was, and the id is still unprocessed, so that a retry starts from the same
    state; there is no partial application. *)
Theorem Consume_all_or_nothing (s : MemoryStore) (event : Event.t) :
  (snd (Consume event s) = None
   <-> fst (IsEventProcessed (Event.ID event) (fst (Consume event s))) = true)
  /\ (forall e, snd (Consume event s) = Some e ->
        fst (Consume event s) = s
        /\ fst (IsEventProcessed (Event.ID event) s) = false
        /\ poison_cause s event = Some e
        /\ (e = ErrInvalidPayloadType \/ e = ErrUploadNotFound)).
Proof.
  destruct (fst (IsEventProcessed (Event.ID event) s)) eqn:Hp.
  { rewrite Consume_processed by done. simpl in *. by rewrite Hp. }
  destruct (poison_cause s event) as [cause|] eqn:Hc.
  - rewrite (Consume_poison s event cause) by done. simpl in *. rewrite Hp.
    split; [split; congruence|]. intros e [= <-].
    split; [done|split; [done|split; [done|]]].
    unfold poison_cause in Hc. destruct (Event.Payload event) as [p|ty].
    + destruct (uploads s !! _); [done|]. injection Hc as <-. by right.
    + injection Hc as <-. by left.
  - destruct (poison_cause_None s event Hc) as (p & Hpl & Hu).
    rewrite (Consume_fresh s event p) by done. simpl. split; [|done].
    split; [|done]. intros _. destruct Hu as [u Hu].
    unfold applied_once, AddTransaction, IncrementProcessedRows.
    rewrite Hu. simpl. rewrite Hu. simpl. by rewrite lookup_insert_eq.
Qed.

Lemma Consume_all_or_nothing_witness :
  fst (Consume poison_event s1_store) = s1_store
  /\ fst (IsEventProcessed "u-9" s1_store) = false.
Proof.
  destruct (Consume_all_or_nothing s1_store poison_event) as [_ Hfail].
  destruct (Hfail ErrInvalidPayloadType eq_refl) as (Hs & Hp & _).
  split; [exact Hs|exact Hp].
Defined.

Lemma state_after_fixed {St : Type} (fn : St -> St * option error) (s : St) (k : nat) :
  fst (fn s) = s -> state_after fn s k = s.
Proof.
  intros Hfix. induction k as [|k IH]; [done|].
  by rewrite state_after_succ, IH.
Qed.

(** X17: an unprocessed event that no attempt can apply (a payload of
    another type, or an upload that is not in the store) costs a worker the
    full retry cycle: as long as the context does not fire during the four
    sleeps, [processEvent] makes five attempts, sleeps 1s, 2s, 4s and 8s
    between them, ends with the max-retries error wrapping the cause, and
    leaves the store as it was, with the event still unprocessed. *)
Theorem processEvent_poison (ctx_done : Z -> option error) (s : MemoryStore)
    (event : Event.t) (cause : error) :
  fst (IsEventProcessed (Event.ID event) s) = false ->
  poison_cause s event = Some cause ->
  (forall i, 0 <= i < 4 -> ctx_done i = None) ->
  processEvent ctx_done event s
  = (s, Some (ErrMaxRetriesExceeded 5 cause),
     [1000000000; 2000000000; 4000000000; 8000000000]).
Proof.
  intros Hp Hc Hctx.
  pose proof (Consume_poison s event cause Hp Hc) as Hcons.
  assert (Hst : forall k, state_after (Consume event) s k = s).
  { intros k. apply state_after_fixed. by rewrite Hcons. }
  unfold processEvent.
  rewrite (Do_exhausted ctx_done (Consume event) _ s 4 cause).
  - by rewrite Hst.
  - by vm_compute.
  - intros i Hi. unfold outcome. rewrite Hst, Hcons. split; [done|].
    apply Hctx. lia.
  - unfold outcome. by rewrite Hst, Hcons.
Qed.

Lemma processEvent_poison_witness :
  processEvent never_done poison_event s1_store
  = (s1_store, Some (ErrMaxRetriesExceeded 5 ErrInvalidPayloadType),
     [1000000000; 2000000000; 4000000000; 8000000000]).
Proof.
  apply processEvent_poison; [reflexivity|reflexivity|].
  intros i Hi. reflexivity.
Defined.

Lemma applied_once_effect (eventID : string) (p : ReconciliationEvent.t)
    (s : MemoryStore) (up : Upload.t) :
  uploads s !! ReconciliationEvent.UploadID p = Some up ->
  applied_once eventID p s
  = mkStore
      (<[ReconciliationEvent.UploadID p :=
           Upload.Build (Upload.ID up) (Upload.Status up)
             (Int64.add (Upload.ProcessedRows up) 1)
             (Upload.TotalRows up) (Upload.CreatedAt up) (Upload.CompletedAt up)]>
         (uploads s))
      (<[ReconciliationEvent.UploadID p :=
           txs_of s (ReconciliationEvent.UploadID p)
           ++ [TransactionWithLine.Build (ReconciliationEvent.Transaction_ p)
                 (ReconciliationEvent.LineNumber p)]]>
         (transactions s))
      (<[eventID := true]> (processedEvents s)).
Proof.
  intros Hu. unfold applied_once, AddTransaction, IncrementProcessedRows.
  rewrite Hu. simpl. by rewrite Hu.
Qed.

Lemma rows_for_cons (uploadID : string) (event : Event.t) (events : list Event.t) :
  rows_for uploadID (event :: events)
  = rows_for uploadID [event] ++ rows_for uploadID events.
Proof.
  unfold rows_for. simpl.
  destruct (Event.Payload event) as [p|ty]; [|done]. by case_decide.
Qed.

Lemma consume_all_dedup_gen (events : list Event.t) :
  forall (s : MemoryStore) (seen : gset string),
    (forall id, id ∈ seen <-> fst (IsEventProcessed id s) = true) ->
    (forall id up, uploads s !! id = Some up ->
       Int64.in_range (Upload.ProcessedRows up)) ->
    Forall (applicable s) events ->
    Forall (fun err => err = None) (snd (consume_all events s))
    /\ (forall uploadID,
          txs_of (fst (consume_all events s)) uploadID
          = txs_of s uploadID ++ rows_for uploadID (first_by_id seen events))
    /\ (forall uploadID up,
          uploads s !! uploadID = Some up ->
          Upload.ProcessedRows <$> uploads (fst (consume_all events s)) !! uploadID
          = Some (Int64.wrap
                    (Upload.ProcessedRows up
                     + Z.of_nat (length (rows_for uploadID (first_by_id seen events))))))
    /\ (forall id,
          fst (IsEventProcessed id (fst (consume_all events s))) = true
          <-> id ∈ seen \/ id ∈ (Event.ID <$> events)).
Proof.
  induction events as [|event rest IH]; intros s seen Hseen Hrange Happ.
  - simpl. split; [done|]. split; [intros u; by rewrite app_nil_r|].
    split.
    + intros u up Hu. rewrite Hu. simpl. rewrite Z.add_0_r.
      rewrite wrap_small; [done|]. by apply (Hrange u).
    + intros id. split; [intros H; left; by apply Hseen|].
      intros [H|H]; [by apply Hseen|]. by apply elem_of_nil in H.
  - apply Forall_cons in Happ as [(p & Hpl & Hu) Happ].
    cbn [consume_all first_by_id]. destruct (decide (Event.ID event ∈ seen)) as [Hin|Hnin].
    + rewrite Consume_processed by by apply Hseen.
      destruct (consume_all rest s) as [s' errs] eqn:Hrest.
      destruct (IH s seen Hseen Hrange Happ) as (Herrs & Htxs & Hrows & Hproc).
      rewrite Hrest in *. cbn [fst snd] in *.
      split; [by apply Forall_cons|]. split; [done|]. split; [done|].
      intros id. rewrite Hproc, fmap_cons, elem_of_cons.
      split; [tauto|]. intros [H|[->|H]]; auto.
    + assert (Hfresh : fst (IsEventProcessed (Event.ID event) s) = false).
      { destruct (fst (IsEventProcessed (Event.ID event) s)) eqn:Hp; [|done].
        by apply Hseen in Hp. }
      rewrite (Consume_fresh s event p) by done.
      destruct Hu as [up0 Hu0].
      pose proof (applied_once_effect (Event.ID event) p s up0 Hu0) as Heff.
      set (s1 := applied_once (Event.ID event) p s) in *.
      assert (Hseen1 : forall id, id ∈ {[Event.ID event]} ∪ seen
                                  <-> fst (IsEventProcessed id s1) = true).
      { intros id. rewrite Heff. simpl. rewrite elem_of_union, elem_of_singleton.
        destruct (decide (Event.ID event = id)) as [->|Hne].
        - rewrite lookup_insert_eq. simpl. tauto.
        - rewrite lookup_insert_ne by done. rewrite Hseen. simpl.
          split; [intros [->|?]; done|by right]. }
      assert (Happ1 : Forall (applicable s1) rest).
      { eapply Forall_impl; [exact Happ|]. intros ev (q & Hq & [uq Huq]).
        exists q. split; [done|]. rewrite Heff. simpl.
        destruct (decide (ReconciliationEvent.UploadID p = ReconciliationEvent.UploadID q))
          as [Heq|Hne].
        - rewrite Heq, lookup_insert_eq. eauto.
        - rewrite lookup_insert_ne by done. eauto. }
      assert (Hrange1 : forall id up, uploads s1 !! id = Some up ->
                          Int64.in_range (Upload.ProcessedRows up)).
      { intros id up. rewrite Heff. simpl.
        destruct (decide (ReconciliationEvent.UploadID p = id)) as [->|Hne].
        - rewrite lookup_insert_eq. intros [= <-]. simpl. apply wrap_in_range.
        - rewrite lookup_insert_ne by done. apply Hrange. }
      destruct (consume_all rest s1) as [s' errs] eqn:Hrest.
      destruct (IH s1 _ Hseen1 Hrange1 Happ1) as (Herrs & Htxs & Hrows & Hproc).
      rewrite Hrest in *. cbn [fst snd] in *.
      split; [by apply Forall_cons|]. split; [|split].
      * intros u. rewrite Htxs, rows_for_cons, app_assoc. f_equal.
        unfold rows_for. simpl. rewrite Hpl. rewrite Heff. unfold txs_of. simpl.
        case_decide as Hup.
        -- subst u. by rewrite lookup_insert_eq.
        -- rewrite lookup_insert_ne by done. by rewrite app_nil_r.
      * intros u up Hup. rewrite rows_for_cons, length_app.
        unfold rows_for at 1. simpl. rewrite Hpl.
        case_decide as Hpu.
        -- subst u. assert (up = up0) as -> by congruence.
           erewrite Hrows; [|rewrite Heff; simpl; by rewrite lookup_insert_eq].
           simpl. f_equal. unfold Int64.add.
           rewrite wrap_add_l. f_equal. lia.
        -- erewrite Hrows; [|rewrite Heff; simpl; by rewrite lookup_insert_ne].
           done.
      * intros id. rewrite Hproc, fmap_cons, elem_of_cons, elem_of_union,
          elem_of_singleton. tauto.
Qed.

Lemma run_store_ok (ops : list op) : store_ok (run ops).
Proof.
  unfold run. induction ops as [|o ops IH] using rev_ind.
  - split; [|split]; simpl.
    + by rewrite !dom_empty_L.
    + intros id u. by rewrite lookup_empty.
    + intros id b. by rewrite lookup_empty.
  - rewrite fold_left_app. simpl. by apply apply_op_store_ok.
Qed.

(** X18: exactly-once application over a sequence of events.  On a
    well-formed store, consuming in order a list of events each of which
    carries a reconciliation payload for a stored upload never fails, and
    applies each event id once: what is appended to an upload's transactions
    is the rows, in order, of the events that are the first in the list with
    their id and whose id was not processed before; [processed_rows] of the
    upload grows by the number of those rows (within [int] arithmetic); and
    the processed-event set afterwards is the old one plus the ids of all the
    events. *)
Theorem consume_all_exactly_once (events : list Event.t) (s : MemoryStore) :
  store_ok s ->
  Forall (applicable s) events ->
  Forall (fun err => err = None) (snd (consume_all events s))
  /\ (forall uploadID,
        txs_of (fst (consume_all events s)) uploadID
        = txs_of s uploadID
          ++ rows_for uploadID (first_by_id (dom (processedEvents s)) events))
  /\ (forall uploadID up,
        uploads s !! uploadID = Some up ->
        Upload.ProcessedRows <$> uploads (fst (consume_all events s)) !! uploadID
        = Some (Int64.wrap
                  (Upload.ProcessedRows up
                   + Z.of_nat (length (rows_for uploadID
                                         (first_by_id (dom (processedEvents s)) events))))))
  /\ (forall id,
        fst (IsEventProcessed id (fst (consume_all events s))) = true
        <-> fst (IsEventProcessed id s) = true \/ id ∈ (Event.ID <$> events)).
Proof.
  intros (Hdom & Hup & Hev) Happ.
  assert (Hseen : forall id, id ∈ dom (processedEvents s)
                             <-> fst (IsEventProcessed id s) = true).
  { intros id. rewrite elem_of_dom. simpl.
    destruct (processedEvents s !! id) as [b|] eqn:Hb; simpl.
    - rewrite (Hev id b Hb). split; eauto.
    - split; [by intros [? ?]|done]. }
  destruct (consume_all_dedup_gen events s (dom (processedEvents s)) Hseen
              ltac:(intros id up Hu; by apply (Hup id up Hu)) Happ)
    as (Herrs & Htxs & Hrows & Hproc).
  split; [done|]. split; [done|]. split; [done|].
  intros id. rewrite Hproc. by rewrite Hseen.
Qed.

Lemma consume_all_exactly_once_witness :
  txs_of (fst (consume_all [s5_event 10; s5_event 20; s5_event 30] s1_store)) "u"
  = txs_of s1_store "u"
    ++ [TransactionWithLine.Build
          (mk_tx TransactionTypeCredit 10 TransactionStatusSuccess) 1].
Proof.
  destruct (consume_all_exactly_once [s5_event 10; s5_event 20; s5_event 30] s1_store)
    as (_ & Htxs & _).
  - apply run_store_ok.
  - apply Forall_cons_2; [|apply Forall_cons_2; [|apply Forall_cons_2; [|apply Forall_nil_2]]];
      (eexists; split; [reflexivity|vm_compute; eauto]).
  - rewrite Htxs. by vm_compute.
Defined.

(** ** The CSV processor: what the parser accepts and rejects *)

(** X19: every transaction the parser accepts is well formed for the
    ledger: its type is CREDIT or DEBIT, its status is SUCCESS, FAILED or
    PENDING, its timestamp and amount are [int64] values, and the record had
    six fields.  The line number plays no part in the result. *)
Theorem parseTransaction_well_formed `{!gostd.CaseTable} (record : list string)
    (lineNumber : Z) (tx : Transaction.t) :
  parseTransaction record lineNumber = (tx, None) ->
  length record = 6%nat
  /\ (Transaction.Type_ tx = TransactionTypeCredit
      \/ Transaction.Type_ tx = TransactionTypeDebit)
  /\ (Transaction.Status tx = TransactionStatusSuccess
      \/ Transaction.Status tx = TransactionStatusFailed
      \/ Transaction.Status tx = TransactionStatusPending)
  /\ Int64.in_range (Transaction.Timestamp tx)
  /\ Int64.in_range (Transaction.Amount tx)
  /\ (forall lineNumber', parseTransaction record lineNumber' = (tx, None)).
Proof.
  intros Hparse.
  destruct record as [|r0 [|r1 [|r2 [|r3 [|r4 [|r5 [|r6 rest]]]]]]]; try done.
  split; [done|]. unfold parseTransaction in *.
  destruct (gostd.ParseInt (gostd.TrimSpace r0)) as [ts [e|]] eqn:Hts; [done|].
  destruct (gostd.ParseInt (gostd.TrimSpace r3)) as [amt [e|]] eqn:Hamt; [done|].
  set (ty := gostd.TrimSpace (gostd.ToUpper r2)) in *.
  set (st := gostd.TrimSpace (gostd.ToUpper r4)) in *.
  destruct (bool_decide (ty ≠ TransactionTypeCredit)
            && bool_decide (ty ≠ TransactionTypeDebit)) eqn:Ht; [done|].
  destruct (bool_decide (st ≠ TransactionStatusSuccess)
            && bool_decide (st ≠ TransactionStatusFailed)
            && bool_decide (st ≠ TransactionStatusPending)) eqn:Hs; [done|].
  injection Hparse as <-. simpl.
  split; [|split; [|split; [|split; [|done]]]].
  - apply andb_false_iff in Ht as [Ht|Ht]; apply bool_decide_eq_false_1 in Ht.
    + left. by destruct (decide (ty = TransactionTypeCredit)).
    + right. by destruct (decide (ty = TransactionTypeDebit)).
  - apply andb_false_iff in Hs as [Hs|Hs];
      [apply andb_false_iff in Hs as [Hs|Hs]|]; apply bool_decide_eq_false_1 in Hs.
    + left. by destruct (decide (st = TransactionStatusSuccess)).
    + right; left. by destruct (decide (st = TransactionStatusFailed)).
    + right; right. by destruct (decide (st = TransactionStatusPending)).
  - by apply (ParseInt_in_range (gostd.TrimSpace r0)).
  - by apply (ParseInt_in_range (gostd.TrimSpace r3)).
Qed.

Lemma parseTransaction_well_formed_witness :
  Transaction.Type_
    (Transaction.Build 1674507884 "JANE DOE" "CREDIT" 500000 "PENDING" "salary")
  = TransactionTypeCredit
  \/ Transaction.Type_
       (Transaction.Build 1674507884 "JANE DOE" "CREDIT" 500000 "PENDING" "salary")
     = TransactionTypeDebit.
Proof.
  apply (parseTransaction_well_formed
           [" 1674507884"; "JANE DOE "; "credit"; "500000"; " Pending"; "salary"] 2).
  by vm_compute.
Defined.

(** X20: what the parser rejects, and how.  A record that does not have
    exactly six fields is rejected with the record-format error carrying its
    field count, whatever the fields hold.  Of a six-field record the
    timestamp is judged first, then the amount, then the type, then the
    status: a timestamp that does not parse gives the timestamp error
    whatever the other fields hold; with a timestamp that parses, an amount
    that does not gives the amount error; with both parsing, a type that is
    neither CREDIT nor DEBIT gives the type error, whatever the status; and
    with those three in order, a status that is none of SUCCESS, FAILED and
    PENDING gives the status error.  Every rejection returns the zero
    transaction with one of these five errors. *)
Theorem parseTransaction_rejections `{!gostd.CaseTable} (record : list string)
    (lineNumber : Z) :
  (length record <> 6%nat ->
   parseTransaction record lineNumber
   = (Transaction.zero, Some (ErrRecordFormat (Z.of_nat (length record)))))
  /\ (forall r0 r1 r2 r3 r4 r5 v e,
        record = [r0; r1; r2; r3; r4; r5] ->
        gostd.ParseInt (gostd.TrimSpace r0) = (v, Some e) ->
        parseTransaction record lineNumber
        = (Transaction.zero, Some (ErrInvalidTimestamp e)))
  /\ (forall r0 r1 r2 r3 r4 r5 ts v e,
        record = [r0; r1; r2; r3; r4; r5] ->
        gostd.ParseInt (gostd.TrimSpace r0) = (ts, None) ->
        gostd.ParseInt (gostd.TrimSpace r3) = (v, Some e) ->
        parseTransaction record lineNumber
        = (Transaction.zero, Some (ErrInvalidAmount e)))
  /\ (forall r0 r1 r2 r3 r4 r5 ts amount,
        record = [r0; r1; r2; r3; r4; r5] ->
        gostd.ParseInt (gostd.TrimSpace r0) = (ts, None) ->
        gostd.ParseInt (gostd.TrimSpace r3) = (amount, None) ->
        gostd.TrimSpace (gostd.ToUpper r2) <> TransactionTypeCredit ->
        gostd.TrimSpace (gostd.ToUpper r2) <> TransactionTypeDebit ->
        parseTransaction record lineNumber
        = (Transaction.zero,
           Some (ErrInvalidTransactionType (gostd.TrimSpace (gostd.ToUpper r2)))))
  /\ (forall r0 r1 r2 r3 r4 r5 ts amount,
        record = [r0; r1; r2; r3; r4; r5] ->
        gostd.ParseInt (gostd.TrimSpace r0) = (ts, None) ->
        gostd.ParseInt (gostd.TrimSpace r3) = (amount, None) ->
        gostd.TrimSpace (gostd.ToUpper r2) = TransactionTypeCredit
        \/ gostd.TrimSpace (gostd.ToUpper r2) = TransactionTypeDebit ->
        gostd.TrimSpace (gostd.ToUpper r4) <> TransactionStatusSuccess ->
        gostd.TrimSpace (gostd.ToUpper r4) <> TransactionStatusFailed ->
        gostd.TrimSpace (gostd.ToUpper r4) <> TransactionStatusPending ->
        parseTransaction record lineNumber
        = (Transaction.zero,
           Some (ErrInvalidTxStatus (gostd.TrimSpace (gostd.ToUpper r4)))))
  /\ (forall tx e,
        parseTransaction record lineNumber = (tx, Some e) ->
        tx = Transaction.zero
        /\ ((e = ErrRecordFormat (Z.of_nat (length record)) /\ length record <> 6%nat)
            \/ (exists cause, e = ErrInvalidTimestamp cause)
            \/ (exists cause, e = ErrInvalidAmount cause)
            \/ (exists txType, e = ErrInvalidTransactionType txType
                               /\ txType <> TransactionTypeCredit
                               /\ txType <> TransactionTypeDebit)
            \/ (exists status, e = ErrInvalidTxStatus status
                               /\ status <> TransactionStatusSuccess
                               /\ status <> TransactionStatusFailed
                               /\ status <> TransactionStatusPending))).
Proof.
  split; [|split; [|split; [|split; [|split]]]].
  - intros Hlen.
    by destruct record as [|r0 [|r1 [|r2 [|r3 [|r4 [|r5 [|r6 rest]]]]]]].
  - intros r0 r1 r2 r3 r4 r5 v e -> Hts. unfold parseTransaction. by rewrite Hts.
  - intros r0 r1 r2 r3 r4 r5 ts v e -> Hts Hamt. unfold parseTransaction.
    by rewrite Hts, Hamt.
  - intros r0 r1 r2 r3 r4 r5 ts amount -> Hts Hamt Hcredit Hdebit.
    unfold parseTransaction. rewrite Hts, Hamt.
    by rewrite (bool_decide_eq_true_2 _ Hcredit), (bool_decide_eq_true_2 _ Hdebit).
  - intros r0 r1 r2 r3 r4 r5 ts amount -> Hts Hamt Htype Hsuccess Hfailed Hpending.
    unfold parseTransaction. rewrite Hts, Hamt.
    assert (Haccepted :
      bool_decide (gostd.TrimSpace (gostd.ToUpper r2) ≠ TransactionTypeCredit)
      && bool_decide (gostd.TrimSpace (gostd.ToUpper r2) ≠ TransactionTypeDebit)
      = false).
    { destruct Htype as [-> | ->]; by vm_compute. }
    rewrite Haccepted.
    by rewrite (bool_decide_eq_true_2 _ Hsuccess), (bool_decide_eq_true_2 _ Hfailed),
      (bool_decide_eq_true_2 _ Hpending).
  - intros tx e.
    destruct record as [|r0 [|r1 [|r2 [|r3 [|r4 [|r5 [|r6 rest]]]]]]];
      try (intros [= <- <-]; split; [done|]; left; split; [done|simpl; lia]).
    unfold parseTransaction.
    destruct (gostd.ParseInt (gostd.TrimSpace r0)) as [ts [e0|]].
    { intros [= <- <-]. split; [done|]. right; left. eauto. }
    destruct (gostd.ParseInt (gostd.TrimSpace r3)) as [amt [e0|]].
    { intros [= <- <-]. split; [done|]. right; right; left. eauto. }
    set (ty := gostd.TrimSpace (gostd.ToUpper r2)).
    set (st := gostd.TrimSpace (gostd.ToUpper r4)).
    destruct (bool_decide (ty ≠ TransactionTypeCredit)
              && bool_decide (ty ≠ TransactionTypeDebit)) eqn:Ht.
    { intros [= <- <-]. split; [done|]. do 3 right. left.
      apply andb_true_iff in Ht as [Ht1 Ht2].
      apply bool_decide_eq_true_1 in Ht1, Ht2. eauto. }
    destruct (bool_decide (st ≠ TransactionStatusSuccess)
              && bool_decide (st ≠ TransactionStatusFailed)
              && bool_decide (st ≠ TransactionStatusPending)) eqn:Hs; [|done].
    intros [= <- <-]. split; [done|]. do 4 right.
    apply andb_true_iff in Hs as [Hs Hs3]. apply andb_true_iff in Hs as [Hs1 Hs2].
    apply bool_decide_eq_true_1 in Hs1, Hs2, Hs3. eauto 6.
Qed.

Lemma parseTransaction_rejections_witness :
  parseTransaction ["1674507885"; "BOB SMITH"; "DEBIT"; "100000"; "FAILED"] 3
  = (Transaction.zero, Some (ErrRecordFormat 5))
  /\ parseTransaction ["x"; "BOB SMITH"; "DEBIT"; "y"; "FAILED"; "z"] 3
     = (Transaction.zero, Some (ErrInvalidTimestamp ErrSyntax))
  /\ parseTransaction ["1674507885"; "BOB SMITH"; "gift"; "100000"; "maybe"; "z"] 3
     = (Transaction.zero, Some (ErrInvalidTransactionType "GIFT"))
  /\ parseTransaction ["1674507885"; "BOB SMITH"; "debit"; "100000"; "maybe"; "z"] 3
     = (Transaction.zero, Some (ErrInvalidTxStatus "MAYBE")).
Proof.
  split; [|split; [|split]].
  - apply (parseTransaction_rejections
             ["1674507885"; "BOB SMITH"; "DEBIT"; "100000"; "FAILED"] 3).
    simpl. lia.
  - destruct (parseTransaction_rejections
                ["x"; "BOB SMITH"; "DEBIT"; "y"; "FAILED"; "z"] 3) as (_ & Hts & _).
    apply (Hts "x" "BOB SMITH" "DEBIT" "y" "FAILED" "z" 0 ErrSyntax);
      [reflexivity|by vm_compute].
  - destruct (parseTransaction_rejections
                ["1674507885"; "BOB SMITH"; "gift"; "100000"; "maybe"; "z"] 3)
      as (_ & _ & _ & Htype & _).
    apply (Htype "1674507885" "BOB SMITH" "gift" "100000" "maybe" "z"
             1674507885 100000);
      [reflexivity|by vm_compute|by vm_compute|by vm_compute|by vm_compute].
  - destruct (parseTransaction_rejections
                ["1674507885"; "BOB SMITH"; "debit"; "100000"; "maybe"; "z"] 3)
      as (_ & _ & _ & _ & Hstatus & _).
    apply (Hstatus "1674507885" "BOB SMITH" "debit" "100000" "maybe" "z"
             1674507885 100000);
      [reflexivity|by vm_compute|by vm_compute|right; by vm_compute
      |by vm_compute|by vm_compute|by vm_compute].
Defined.

(** The parser on fields that are not ASCII, with the table fragment of
    [example_table]: a no-break space (U+00A0) before the timestamp and an
    ideographic space (U+3000) behind the amount are trimmed, and a type
    written with a dotless i (U+0131) is DEBIT. *)
Example parseTransaction_unicode_fields :
  parseTransaction
    [gostd.of_bytes [0xC2; 0xA0] +:+ "1674507883"; "JOHN DOE";
     gostd.of_bytes [0x64; 0x65; 0x62; 0xC4; 0xB1; 0x74];
     "250000" +:+ gostd.of_bytes [0xE3; 0x80; 0x80]; "success"; "restaurant"] 1
  = (Transaction.Build 1674507883 "JOHN DOE" "DEBIT" 250000 "SUCCESS" "restaurant",
     None).
Proof. by vm_compute. Qed.

(** ** The CSV processor: the counters *)

Section ReadLoopCounters.
Context {B E R : Type} `{EventBus B E} `{Repository R} `{!gostd.CaseTable}.
Variable now : nat -> Time.
Variable env : nat -> E.
Variable ctx : nat -> option error.
Variable uploadID : string.
Variable reader : Reader.

Lemma record_count_bounds (pos n : nat) :
  0 <= record_count reader pos n <= Z.of_nat n.
Proof.
  revert pos. induction n as [|n IH]; intros pos; [simpl; lia|].
  cbn [record_count]. specialize (IH (S pos)).
  destruct (reader pos); lia.
Qed.

Lemma read_loop_unfold (fuel pos : nat) (c : counters) (bus : B) :
  read_loop now env ctx uploadID reader (S fuel) pos c bus
  = match reader pos with
    | ReadEOF => Some (c, bus)
    | ReadError _ =>
        read_loop now env ctx uploadID reader fuel (S pos)
          (mkCounters (lineNumber c) (successCount c) (Int64.add (errorCount c) 1))
          bus
    | ReadRecord record =>
        let lineNumber' := Int64.add (lineNumber c) 1 in
        let '(tx, err) := parseTransaction record lineNumber' in
        match err with
        | Some _ =>
            read_loop now env ctx uploadID reader fuel (S pos)
              (mkCounters lineNumber' (successCount c) (Int64.add (errorCount c) 1))
              bus
        | None =>
            let '(bus', err) :=
              bus_Publish (env pos) (ctx pos)
                (make_event (now pos) uploadID tx lineNumber') bus in
            match err with
            | Some _ =>
                read_loop now env ctx uploadID reader fuel (S pos)
                  (mkCounters lineNumber' (successCount c)
                     (Int64.add (errorCount c) 1))
                  bus'
            | None =>
                read_loop now env ctx uploadID reader fuel (S pos)
                  (mkCounters lineNumber' (Int64.add (successCount c) 1)
                     (errorCount c))
                  bus'
            end
        end
    end.
Proof. done. Qed.

Lemma read_loop_counters_gen (n : nat) : forall pos c bus c' bus',
  (forall i, (i < n)%nat -> reader (pos + i)%nat <> ReadEOF) ->
  reader (pos + n)%nat = ReadEOF ->
  0 <= lineNumber c /\ 0 <= successCount c /\ 0 <= errorCount c ->
  lineNumber c + Z.of_nat n <= Int64.max_int
  /\ successCount c + Z.of_nat n <= Int64.max_int
  /\ errorCount c + Z.of_nat n <= Int64.max_int ->
  read_loop now env ctx uploadID reader (S n) pos c bus = Some (c', bus') ->
  lineNumber c' = lineNumber c + record_count reader pos n
  /\ successCount c' + errorCount c' = successCount c + errorCount c + Z.of_nat n
  /\ successCount c <= successCount c'
  /\ errorCount c <= errorCount c'
  /\ successCount c' - successCount c <= record_count reader pos n.
Proof.
  induction n as [|n IH]; intros pos c bus c' bus' Hne Heof Hpos Hfit.
  - rewrite Nat.add_0_r in Heof. rewrite read_loop_unfold, Heof.
    intros [= <- <-]. simpl. lia.
  - assert (Heof' : reader (S pos + n)%nat = ReadEOF)
      by (rewrite <- Heof; f_equal; lia).
    assert (Hne' : forall i, (i < n)%nat -> reader (S pos + i)%nat <> ReadEOF).
    { intros i Hi. replace (S pos + i)%nat with (pos + S i)%nat by lia.
      apply Hne. lia. }
    pose proof (Hne 0%nat ltac:(lia)) as Hfirst. rewrite Nat.add_0_r in Hfirst.
    assert (Hw : forall z, 0 <= z -> z + Z.of_nat (S n) <= Int64.max_int ->
                           Int64.add z 1 = z + 1).
    { intros z Hz Hle. unfold Int64.add. apply wrap_small.
      unfold Int64.in_range, Int64.min_int. lia. }
    destruct Hpos as (Hl & Hs & He). destruct Hfit as (Hfl & Hfs & Hfe).
    rewrite read_loop_unfold. cbn [record_count].
    pose proof (record_count_bounds (S pos) n) as Hrc.
    destruct (reader pos) as [record|e|]; [| |done].
    + cbv zeta. rewrite (Hw (lineNumber c)) by lia.
      destruct (parseTransaction record (lineNumber c + 1)) as [tx [e|]].
      * rewrite (Hw (errorCount c)) by lia. intros Hloop.
        apply IH in Hloop; cbn [lineNumber successCount errorCount] in *;
          try done; lia.
      * destruct (bus_Publish _ _ _ bus) as [bus1 [e|]].
        -- rewrite (Hw (errorCount c)) by lia. intros Hloop.
           apply IH in Hloop; cbn [lineNumber successCount errorCount] in *;
             try done; lia.
        -- rewrite (Hw (successCount c)) by lia. intros Hloop.
           apply IH in Hloop; cbn [lineNumber successCount errorCount] in *;
             try done; lia.
    + rewrite (Hw (errorCount c)) by lia. intros Hloop.
      apply IH in Hloop; cbn [lineNumber successCount errorCount] in *;
        try done; lia.
Qed.

(** X21: on a reader that reports [io.EOF] for the first time at its
    [Read] call number [n] (with [n] within [int]), the loop ends after those
    [n] reads with: [lineNumber] the number of records read (read errors do
    not advance it), [successCount + errorCount = n], and
    [successCount <= lineNumber]; so the status written is FAILED exactly
    when at least one read happened and no event was published with
    success. *)
Theorem read_loop_counters (n : nat) (bus : B) :
  first_eof reader n ->
  Z.of_nat n <= Int64.max_int ->
  exists c bus',
    read_loop now env ctx uploadID reader (S n) 0%nat (mkCounters 0 0 0) bus
    = Some (c, bus')
    /\ lineNumber c = record_count reader 0 n
    /\ successCount c + errorCount c = Z.of_nat n
    /\ 0 <= successCount c <= lineNumber c
    /\ 0 <= errorCount c
    /\ (final_status c = UploadStatusFailed
        <-> (1 <= n)%nat /\ successCount c = 0).
Proof.
  intros [Heof Hne] Hn.
  destruct (read_loop_reaches_eof now env ctx uploadID reader n 0%nat
              (mkCounters 0 0 0) bus Heof) as [[c bus'] Hloop].
  exists c, bus'. split; [done|].
  destruct (read_loop_counters_gen n 0%nat (mkCounters 0 0 0) bus c bus')
    as (Hl & Hsum & Hs & He & Hsl); simpl; try done; try lia.
  simpl in *. split; [lia|]. split; [lia|]. split; [lia|]. split; [lia|].
  unfold final_status.
  destruct (bool_decide (errorCount c > 0)) eqn:Hbe;
    destruct (bool_decide (successCount c = 0)) eqn:Hbs; simpl;
    try apply bool_decide_eq_true_1 in Hbe; try apply bool_decide_eq_false_1 in Hbe;
    try apply bool_decide_eq_true_1 in Hbs; try apply bool_decide_eq_false_1 in Hbs;
    unfold UploadStatusFailed, UploadStatusCompleted;
    (split; [try done; intros _|intros [? ?]; try done; try lia]); try lia.
Qed.
End ReadLoopCounters.

Lemma read_loop_counters_witness :
  exists c bus',
    read_loop (ticking 7) quiet live "u" s6_reader 4
      0%nat (mkCounters 0 0 0) (subscribed_bus 1000)
    = Some (c, bus')
    /\ successCount c + errorCount c = 3.
Proof.
  destruct (read_loop_counters (ticking 7) quiet live "u" s6_reader 3
              (subscribed_bus 1000))
    as (c & bus' & Hloop & _ & Hsum & _).
  - split; [reflexivity|]. intros i Hi.
    destruct i as [|[|[|i]]]; (discriminate || lia).
  - vm_compute. congruence.
  - exists c, bus'. split; [exact Hloop|exact Hsum].
Defined.

(** ** The event bus: what publishing and subscribing keep *)

(** X22: whatever the context and the scheduler do, one [Publish] leaves
    the bus's consumers, buffer size and started flag alone, creates and
    removes no queue, leaves the queues of all other event types untouched,
    and changes the queue of the event's own type, if at all, only by adding
    the event at the tail, its capacity unchanged.  With no receiver parked it
    never takes a queue past its capacity. *)
Theorem Publish_frame (env : select_env) (ctx : option error) (event : Event.t)
    (eb : eventBus) :
  let eb' := fst (Publish env ctx event eb) in
  consumers eb' = consumers eb
  /\ channelBuffer eb' = channelBuffer eb
  /\ started eb' = started eb
  /\ dom (channels eb') = dom (channels eb)
  /\ (forall ty, ty <> Event.Type_ event -> channels eb' !! ty = channels eb !! ty)
  /\ (forall ch, channels eb !! Event.Type_ event = Some ch ->
        exists ch', channels eb' !! Event.Type_ event = Some ch'
                    /\ cap ch' = cap ch
                    /\ (buf ch' = buf ch \/ buf ch' = buf ch ++ [event]))
  /\ (receiver_parked env = false -> within_capacity eb -> within_capacity eb').
Proof.
  cbv zeta. unfold Publish.
  destruct (channels eb !! Event.Type_ event) as [ch|] eqn:Hch.
  2:{ simpl. repeat (split; [done|]). by intros. }
  assert (Hsame : forall P : eventBus -> Prop, P eb ->
            P (send (Event.Type_ event) ch event eb) ->
            P (fst (match send_ready ch env, ctx with
                    | true, Some ctxErr =>
                        if done_first env then (eb, Some ctxErr)
                        else (send (Event.Type_ event) ch event eb, None)
                    | true, None => (send (Event.Type_ event) ch event eb, None)
                    | false, Some ctxErr => (eb, Some ctxErr)
                    | false, None => (eb, None)
                    end))).
  { intros P H1 H2. destruct (send_ready ch env), ctx; try done.
    by destruct (done_first env). }
  split; [by apply Hsame|]. split; [by apply Hsame|]. split; [by apply Hsame|].
  split.
  { apply Hsame; [done|]. simpl. apply dom_insert_lookup_L. eauto. }
  split.
  { intros ty Hne. apply Hsame; [done|]. simpl. by rewrite lookup_insert_ne. }
  split.
  { intros ch0 [= <-]. apply Hsame.
    - exists ch. rewrite Hch. eauto.
    - simpl. rewrite lookup_insert_eq. eexists. split; [done|]. simpl. eauto. }
  intros Hpark Hcap.
  destruct (send_ready ch env) eqn:Hready.
  2:{ by destruct ctx. }
  assert (Hroom : Z.of_nat (length (buf ch)) < cap ch).
  { unfold send_ready in Hready. rewrite Hpark in Hready. simpl in Hready.
    rewrite orb_false_r in Hready. by apply bool_decide_eq_true_1 in Hready. }
  assert (Hsend : within_capacity (send (Event.Type_ event) ch event eb)).
  { intros ty ch'. simpl. destruct (decide (Event.Type_ event = ty)) as [<-|Hne].
    - rewrite lookup_insert_eq. intros [= <-]. simpl. rewrite length_app. simpl. lia.
    - rewrite lookup_insert_ne by done. apply Hcap. }
  destruct ctx as [ce|]; [|done]. by destruct (done_first env).
Qed.

Lemma Publish_frame_witness :
  within_capacity
    (fst (Publish (mkEnv false false) None (s5_event 20)
            (fst (Publish (mkEnv false false) None (s5_event 10) (subscribed_bus 1))))).
Proof.
  destruct (Publish_frame (mkEnv false false) None (s5_event 20)
              (fst (Publish (mkEnv false false) None (s5_event 10) (subscribed_bus 1))))
    as (_ & _ & _ & _ & _ & _ & Hcap).
  apply Hcap; [reflexivity|].
  destruct (Publish_frame (mkEnv false false) None (s5_event 10) (subscribed_bus 1))
    as (_ & _ & _ & _ & _ & _ & Hcap1).
  apply Hcap1; [reflexivity|].
  intros ty ch.
  assert (channels (subscribed_bus 1)
          = <[EventTypeReconciliation := mkChan [] 1]> ∅) as -> by reflexivity.
  destruct (decide (EventTypeReconciliation = ty)) as [<-|Hne].
  - rewrite lookup_insert_eq. intros [= <-]. simpl. lia.
  - rewrite lookup_insert_ne by done. by rewrite lookup_empty.
Defined.




(** X24: [Subscribe] panics exactly when it has to make a queue (there is
    none for the type yet) and the runtime refuses the configured buffer
    size: a negative one, or one above the largest size [maxSize] it makes a
    channel of events for.  With a queue for the type already there it
    returns whatever the buffer size.  When it returns, it returns [nil], and
    afterwards the type has a queue; every queue that existed, this type's
    included, holds the events and has the capacity it had; a queue it made
    is empty with the configured capacity; the consumer is added behind the
    consumers the type already had; and the consumers of other types, the
    buffer size and the started flag are as before. *)
Theorem Subscribe_effect (maxSize : Z) (eventType : EventType)
    (consumer : ReconciliationConsumer) (eb : eventBus) :
  (Subscribe maxSize eventType consumer eb = Panics
   <-> channels eb !! eventType = None
       /\ (channelBuffer eb < 0 \/ maxSize < channelBuffer eb))
  /\ (forall eb' err,
        Subscribe maxSize eventType consumer eb = Returns (eb', err) ->
        err = None
        /\ (forall ty ch, channels eb !! ty = Some ch -> channels eb' !! ty = Some ch)
        /\ (channels eb !! eventType = None ->
            channels eb' !! eventType = Some (mkChan [] (channelBuffer eb)))
        /\ (forall ty, ty <> eventType -> channels eb' !! ty = channels eb !! ty)
        /\ consumers eb' !! eventType
           = Some (default [] (consumers eb !! eventType) ++ [consumer])
        /\ (forall ty, ty <> eventType -> consumers eb' !! ty = consumers eb !! ty)
        /\ channelBuffer eb' = channelBuffer eb
        /\ started eb' = started eb).
Proof.
  unfold Subscribe, make_chan.
  destruct (channels eb !! eventType) as [ch|] eqn:Hch.
  - split; [split; [done|by intros [? _]]|].
    intros eb' err [= <- <-]. simpl.
    split; [done|]. split; [done|]. split; [done|]. split; [done|].
    split; [apply lookup_insert_eq|]. split; [|done].
    intros ty Hne. by apply lookup_insert_ne.
  - case_decide as Hrefused.
    + split; [done|]. by intros.
    + split; [split; [done|by intros [_ ?]]|].
      intros eb' err [= <- <-]. simpl. split; [done|]. split.
      { intros ty ch Hty. destruct (decide (eventType = ty)) as [->|Hne].
        - congruence.
        - by rewrite lookup_insert_ne. }
      split; [intros _; apply lookup_insert_eq|].
      split; [intros ty Hne; by apply lookup_insert_ne|].
      split; [apply lookup_insert_eq|]. split; [|done].
      intros ty Hne. by apply lookup_insert_ne.
Qed.

Lemma Subscribe_effect_witness :
  Subscribe (2 ^ 40) EventTypeReconciliation (NewReconciliationConsumer 10) (New (-1))
  = Panics
  /\ Subscribe (2 ^ 40) EventTypeReconciliation (NewReconciliationConsumer 10)
       (New (2 ^ 62))
     = Panics.
Proof.
  split.
  - apply (Subscribe_effect (2 ^ 40) EventTypeReconciliation
             (NewReconciliationConsumer 10) (New (-1))).
    split; [reflexivity|]. left. simpl. lia.
  - apply (Subscribe_effect (2 ^ 40) EventTypeReconciliation
             (NewReconciliationConsumer 10) (New (2 ^ 62))).
    split; [reflexivity|]. right. simpl. lia.
Defined.

(** ** The CSV processor: the events it publishes *)

Lemma format_int_inj (a b : Z) : gostd.format_int a = gostd.format_int b -> a = b.
Proof.
  assert (Hparse : forall n,
            DecimalString.NilZero.int_of_string (gostd.format_int n)
            = Some (Z.to_int n)).
  { intros n. apply DecimalString.NilZero.isi; destruct n; simpl; try discriminate.
    - intros [= Hnil]. by apply DecimalPos.Unsigned.to_uint_nonnil in Hnil.
    - intros [= Hnil]. by apply DecimalPos.Unsigned.to_uint_nonnil in Hnil. }
  intros Heq. apply DecimalZ.to_int_inj.
  pose proof (Hparse a) as Ha. rewrite Heq, Hparse in Ha. congruence.
Qed.

Lemma string_app_inv_head (p x y : string) : p +:+ x = p +:+ y -> x = y.
Proof.
  induction p as [|c p IH]; simpl; [done|]. intros [= Heq]. by apply IH.
Qed.

Lemma make_event_ID_inj (now now' : Time) (uploadID : string)
    (tx tx' : Transaction.t) (ln ln' : Z) :
  Event.ID (make_event now uploadID tx ln) = Event.ID (make_event now' uploadID tx' ln') ->
  ln = ln'.
Proof.
  unfold make_event. simpl. intros Heq.
  apply string_app_inv_head in Heq. apply (string_app_inv_head "-") in Heq.
  by apply format_int_inj.
Qed.

Lemma Publish_effect_cases (env : select_env) (ctx : option error) (event : Event.t)
    (eb : eventBus) :
  fst (Publish env ctx event eb) = eb
  \/ exists ch, channels eb !! Event.Type_ event = Some ch
                /\ fst (Publish env ctx event eb) = send (Event.Type_ event) ch event eb.
Proof.
  unfold Publish. destruct (channels eb !! Event.Type_ event) as [ch|]; [|by left].
  destruct (send_ready ch env), ctx as [ce|]; simpl.
  - destruct (done_first env); [by left|right; eauto].
  - right; eauto.
  - by left.
  - by left.
Qed.

Section PublishedEvents.
Context `{!gostd.CaseTable}.
Variable env : nat -> select_env.
Variable now : nat -> Time.
Variable ctx : nat -> option error.
Variable uploadID : string.
Variable reader : Reader.

Lemma built_for_later (pos pos' : nat) (event : Event.t) :
  (pos <= pos')%nat ->
  built_for now uploadID reader pos' event -> built_for now uploadID reader pos event.
Proof.
  intros Hle (i & record & tx & Hi & Hrest). exists i, record, tx. split; [lia|done].
Qed.

Lemma loop_appended_refl (pos : nat) (c : counters) (bus : eventBus) :
  loop_appended now uploadID reader pos c c bus bus.
Proof.
  unfold loop_appended. do 4 (split; [done|]). split; [lia|].
  exists []. rewrite app_nil_r. split; [done|]. split; constructor.
Qed.

Lemma loop_appended_skip (pos pos1 : nat) (c c1 c' : counters) (bus bus' : eventBus) :
  (pos <= pos1)%nat ->
  lineNumber c <= lineNumber c1 ->
  loop_appended now uploadID reader pos1 c1 c' bus bus' ->
  loop_appended now uploadID reader pos c c' bus bus'.
Proof.
  intros Hpos Hle
    (Hcons & Hbuf & Hstarted & Hother & Hline & evs & Hq & Hevs & Hsorted).
  unfold loop_appended. do 4 (split; [done|]). split; [lia|].
  exists evs. split; [done|]. split; [|done].
  eapply Forall_impl; [exact Hevs|]. intros ev [Hbuilt Hrange].
  split; [by eapply built_for_later|lia].
Qed.

Lemma loop_appended_send (pos : nat) (c c1 c' : counters) (bus bus' : eventBus)
    (ch : chan) (record : list string) (tx : Transaction.t) :
  lineNumber c < lineNumber c1 ->
  reader pos = ReadRecord record ->
  parseTransaction record (lineNumber c1) = (tx, None) ->
  channels bus !! EventTypeReconciliation = Some ch ->
  loop_appended now uploadID reader (S pos) c1 c'
    (send EventTypeReconciliation ch
       (make_event (now pos) uploadID tx (lineNumber c1)) bus)
    bus' ->
  loop_appended now uploadID reader pos c c' bus bus'.
Proof.
  intros Hlt Hread Hparse Hch
    (Hcons & Hbuf & Hstarted & Hother & Hline & evs & Hq & Hevs & Hsorted).
  simpl in Hcons, Hbuf, Hstarted.
  unfold loop_appended. do 3 (split; [done|]). split; [|split; [lia|]].
  { intros ty Hty. rewrite Hother by done. simpl. by rewrite lookup_insert_ne. }
  exists (make_event (now pos) uploadID tx (lineNumber c1) :: evs).
  split; [|split].
  - rewrite Hq. unfold queue_of. simpl. rewrite lookup_insert_eq, Hch. simpl.
    by rewrite <- app_assoc.
  - constructor.
    + split; [|unfold event_line; simpl; lia].
      exists pos, record, tx. split; [lia|]. split; [done|]. by split.
    + eapply Forall_impl; [exact Hevs|]. intros ev [Hbuilt Hrange].
      split; [eapply built_for_later; [|exact Hbuilt]; lia|lia].
  - constructor; [done|].
    eapply Forall_impl; [exact Hevs|]. intros ev [_ Hrange].
    unfold event_line at 1. simpl. lia.
Qed.

Lemma read_loop_mem_appended (fuel pos : nat) (c c' : counters)
    (bus bus' : eventBus) :
  0 <= lineNumber c ->
  lineNumber c + Z.of_nat fuel <= Int64.max_int ->
  read_loop_mem env now ctx uploadID reader fuel pos c bus = Some (c', bus') ->
  loop_appended now uploadID reader pos c c' bus bus'.
Proof.
  unfold read_loop_mem.
  revert pos c bus. induction fuel as [|fuel IH]; intros pos c bus Hc Hfuel Hrun.
  { done. }
  rewrite read_loop_unfold in Hrun.
  assert (Hnext : Int64.add (lineNumber c) 1 = lineNumber c + 1).
  { apply wrap_small. unfold Int64.in_range, Int64.min_int, Int64.max_int in *. lia. }
  destruct (reader pos) as [record|e|] eqn:Hread.
  - cbv zeta in Hrun. rewrite Hnext in Hrun.
    destruct (parseTransaction record (lineNumber c + 1)) as [tx [perr|]] eqn:Hparse.
    + apply IH in Hrun; cbn [lineNumber] in *; [|lia..].
      eapply (loop_appended_skip pos (S pos)); [lia| |exact Hrun].
      cbn [lineNumber]. lia.
    + set (event := make_event (now pos) uploadID tx (lineNumber c + 1)) in *.
      change (bus_Publish (env pos) (ctx pos) event bus)
        with (Publish (env pos) (ctx pos) event bus) in Hrun.
      destruct (Publish_effect_cases (env pos) (ctx pos) event bus)
        as [Hsame|(ch & Hch & Hsent)];
        destruct (Publish (env pos) (ctx pos) event bus) as [bus1 perr];
        simpl in *; subst bus1;
        destruct perr; apply IH in Hrun; cbn [lineNumber] in *; try lia.
      * eapply (loop_appended_skip pos (S pos)); [lia| |exact Hrun].
        cbn [lineNumber]. lia.
      * eapply (loop_appended_skip pos (S pos)); [lia| |exact Hrun].
        cbn [lineNumber]. lia.
      * eapply (loop_appended_send pos _ (mkCounters (lineNumber c + 1) _ _));
          [| exact Hread | exact Hparse | exact Hch | exact Hrun].
        cbn [lineNumber]. lia.
      * eapply (loop_appended_send pos _ (mkCounters (lineNumber c + 1) _ _));
          [| exact Hread | exact Hparse | exact Hch | exact Hrun].
        cbn [lineNumber]. lia.
  - apply IH in Hrun; cbn [lineNumber] in *; [|lia..].
    eapply (loop_appended_skip pos (S pos)); [lia| |exact Hrun].
    cbn [lineNumber]. lia.
  - injection Hrun as <- <-. apply loop_appended_refl.
Qed.

Lemma sorted_lines_NoDup_ID (pos : nat) (evs : list Event.t) :
  Forall (built_for now uploadID reader pos) evs ->
  Sorted.StronglySorted (fun a b => event_line a < event_line b) evs ->
  NoDup (Event.ID <$> evs).
Proof.
  intros Hbuilt Hsorted. induction Hsorted as [|a l Hl IH Hall]; simpl.
  { constructor. }
  apply Forall_cons in Hbuilt as [Ha Hrest].
  constructor; [|by apply IH].
  intros Hin. apply list_elem_of_fmap in Hin as (b & Hid & Hb).
  rewrite Forall_forall in Hall, Hrest.
  destruct Ha as (ia & _ & txa & _ & _ & _ & Hea).
  destruct (Hrest b Hb) as (ib & _ & txb & _ & _ & _ & Heb).
  rewrite Hea, Heb in Hid. apply make_event_ID_inj in Hid.
  specialize (Hall b Hb). simpl in Hall. lia.
Qed.

Lemma ProcessStream_mem_inv (nowAtEnd : Time) (fuel : nat) (bus bus' : eventBus)
    (repo repo' : MemoryStore) (c : counters) (err : option error) :
  ProcessStream_mem env now nowAtEnd ctx uploadID reader fuel bus repo
  = Some (bus', repo', c, err) ->
  read_loop_mem env now ctx uploadID reader fuel 0%nat (mkCounters 0 0 0) bus
  = Some (c, bus')
  /\ repo' = fst (UpdateUploadStatus nowAtEnd uploadID (final_status c) repo)
  /\ err = None.
Proof.
  unfold ProcessStream_mem, ProcessStream, read_loop_mem.
  destruct (read_loop _ _ _ _ _ _ _ _ _) as [[c0 bus0]|]; [|done].
  cbn [repo_UpdateUploadStatus MemoryStore_Repository].
  assert (Hstatus :
    (if bool_decide (errorCount c0 > 0) && bool_decide (successCount c0 = 0)
     then UpdateUploadStatus nowAtEnd uploadID UploadStatusFailed repo
     else UpdateUploadStatus nowAtEnd uploadID UploadStatusCompleted repo)
    = UpdateUploadStatus nowAtEnd uploadID (final_status c0) repo).
  { unfold final_status.
    by destruct (bool_decide (errorCount c0 > 0) && bool_decide (successCount c0 = 0)). }
  rewrite Hstatus.
  destruct (UpdateUploadStatus nowAtEnd uploadID (final_status c0) repo) as [repo0 e0]
    eqn:Hupd.
  intros [= <- <- <- <-]. by rewrite Hupd.
Qed.

Lemma ProcessStream_store_effect_aux (nowAtEnd : Time) (n fuel : nat)
    (bus : eventBus) (repo : MemoryStore) :
  reader n = ReadEOF ->
  (n < fuel)%nat ->
  exists bus' c,
    ProcessStream_mem env now nowAtEnd ctx uploadID reader fuel bus repo
    = Some (bus', fst (UpdateUploadStatus nowAtEnd uploadID (final_status c) repo),
            c, None).
Proof.
  intros Heof Hfuel.
  destruct (ProcessStream_finalizes (B := eventBus) (R := MemoryStore)
              now nowAtEnd env ctx uploadID reader n fuel bus repo Heof Hfuel)
    as (bus' & c & _ & Hrun & _).
  by exists bus', c.
Qed.
End PublishedEvents.

(** X25 (ProcessStream, events published).  Whatever the clock, the context
    and the scheduler do from one iteration to the next: when a run of
    [ProcessStream] of fewer than 2^63 iterations returns, what it has sent
    to the queue of reconciliation events is, in order behind what the queue
    held, a list of events each of which was built in some iteration from
    the record read in it, which parses at the event's line number, and is
    stamped with the time of that iteration; the line numbers lie between 1
    and the final line count and are strictly increasing along the list; the
    event IDs are pairwise distinct; the other queues and the consumers are
    untouched. *)
Theorem ProcessStream_published_events `{!gostd.CaseTable}
    (env : nat -> select_env) (now : nat -> Time) (nowAtEnd : Time)
    (ctx : nat -> option error) (uploadID : string) (reader : Reader) (fuel : nat)
    (bus bus' : eventBus) (repo repo' : MemoryStore) (c : counters)
    (err : option error) :
  Z.of_nat fuel <= Int64.max_int ->
  ProcessStream_mem env now nowAtEnd ctx uploadID reader fuel bus repo
  = Some (bus', repo', c, err) ->
  exists evs,
    queue_of bus' EventTypeReconciliation
    = queue_of bus EventTypeReconciliation ++ evs
    /\ Forall (fun ev => built_for now uploadID reader 0 ev
                         /\ 1 <= event_line ev <= lineNumber c) evs
    /\ Sorted.StronglySorted (fun a b => event_line a < event_line b) evs
    /\ NoDup (Event.ID <$> evs)
    /\ (forall ty, ty <> EventTypeReconciliation ->
          channels bus' !! ty = channels bus !! ty)
    /\ consumers bus' = consumers bus.
Proof.
  intros Hfuel Hrun.
  apply ProcessStream_mem_inv in Hrun as (Hloop & _ & _).
  apply read_loop_mem_appended in Hloop; cbn [lineNumber]; [|lia..].
  destruct Hloop as (Hcons & _ & _ & Hother & _ & evs & Hq & Hevs & Hsorted).
  cbn [lineNumber] in Hevs.
  exists evs. split; [done|]. split; [|split; [done|split; [|done]]].
  - eapply Forall_impl; [exact Hevs|]. intros ev [Hbuilt Hrange]. split; [done|lia].
  - eapply sorted_lines_NoDup_ID; [|exact Hsorted].
    eapply Forall_impl; [exact Hevs|]. by intros ev [Hbuilt _].
Qed.

Lemma ProcessStream_published_events_witness :
  exists bus' repo' c err evs,
    ProcessStream_mem quiet (ticking 7) 20 live "u" s6_reader 4
      (subscribed_bus 1000) (run [OpCreateUpload 0 "u"])
    = Some (bus', repo', c, err)
    /\ queue_of bus' EventTypeReconciliation
       = queue_of (subscribed_bus 1000) EventTypeReconciliation ++ evs
    /\ NoDup (Event.ID <$> evs).
Proof.
  assert (Heof : s6_reader 3%nat = ReadEOF) by reflexivity.
  assert (Hfuel : (3 < 4)%nat) by lia.
  assert (Hsmall : Z.of_nat 4 <= Int64.max_int) by (by vm_compute).
  destruct (ProcessStream_store_effect_aux quiet (ticking 7) live "u" s6_reader 20
              3 4 (subscribed_bus 1000) (run [OpCreateUpload 0 "u"]) Heof Hfuel)
    as (bus' & c & Hrun).
  destruct (ProcessStream_published_events quiet (ticking 7) 20 live "u" s6_reader
              4 (subscribed_bus 1000) bus' (run [OpCreateUpload 0 "u"]) _ c None
              Hsmall Hrun)
    as (evs & Hq & _ & _ & Hnodup & _).
  eexists bus', _, c, None, evs.
  split; [exact Hrun|]. split; [exact Hq|exact Hnodup].
Defined.

(** X26 (ProcessStream, return and effect on the store).  On a reader that
    reports [io.EOF] at its call number [n], [ProcessStream] with room for
    more than [n] iterations returns, with a [nil] error.  It leaves the
    transactions, the set of processed events and the other uploads of the
    store as they were.  When the store has no upload [uploadID] it is left
    unchanged; otherwise only the status and the completion time of that
    upload change: the status is FAILED when the run counted an error and
    no success and COMPLETED otherwise, and the completion time is set, to
    the time of the update. *)
Theorem ProcessStream_store_effect `{!gostd.CaseTable}
    (env : nat -> select_env) (now : nat -> Time) (nowAtEnd : Time)
    (ctx : nat -> option error) (uploadID : string) (reader : Reader)
    (n fuel : nat) (bus : eventBus) (repo : MemoryStore) :
  reader n = ReadEOF ->
  (n < fuel)%nat ->
  exists bus' repo' c,
    ProcessStream_mem env now nowAtEnd ctx uploadID reader fuel bus repo
    = Some (bus', repo', c, None)
    /\ transactions repo' = transactions repo
    /\ processedEvents repo' = processedEvents repo
    /\ (forall id, id <> uploadID -> uploads repo' !! id = uploads repo !! id)
    /\ match uploads repo !! uploadID with
       | None => repo' = repo
       | Some upload =>
           uploads repo' !! uploadID
           = Some (Upload.Build (Upload.ID upload)
                     (if bool_decide (errorCount c > 0)
                         && bool_decide (successCount c = 0)
                      then UploadStatusFailed else UploadStatusCompleted)
                     (Upload.ProcessedRows upload) (Upload.TotalRows upload)
                     (Upload.CreatedAt upload) (Some nowAtEnd))
       end.
Proof.
  intros Heof Hfuel.
  destruct (ProcessStream_store_effect_aux env now ctx uploadID reader nowAtEnd
              n fuel bus repo Heof Hfuel)
    as (bus' & c & Hrun).
  exists bus', (fst (UpdateUploadStatus nowAtEnd uploadID (final_status c) repo)), c.
  split; [exact Hrun|].
  unfold UpdateUploadStatus.
  destruct (uploads repo !! uploadID) as [upload|] eqn:Hup; simpl.
  - split; [done|]. split; [done|]. split.
    + intros id Hid. by rewrite lookup_insert_ne.
    + rewrite lookup_insert_eq. unfold final_status.
      by destruct (bool_decide (errorCount c > 0) && bool_decide (successCount c = 0)).
  - done.
Qed.

Lemma ProcessStream_store_effect_witness :
  exists bus' repo' c,
    ProcessStream_mem quiet (ticking 7) 20 live "u" s6_reader 4
      (subscribed_bus 1000) (run [OpCreateUpload 0 "u"])
    = Some (bus', repo', c, None)
    /\ transactions repo' = transactions (run [OpCreateUpload 0 "u"]).
Proof.
  assert (Heof : s6_reader 3%nat = ReadEOF) by reflexivity.
  assert (Hfuel : (3 < 4)%nat) by lia.
  destruct (ProcessStream_store_effect quiet (ticking 7) 20 live "u" s6_reader 3 4
              (subscribed_bus 1000) (run [OpCreateUpload 0 "u"]) Heof Hfuel)
    as (bus' & repo' & c & Hrun & Htx & _).
  exists bus', repo', c. split; [exact Hrun|exact Htx].
Defined.
